(** * Shai-Hulud 2.0 IOC database updater: a shallow embedding

    This development embeds [scripts/update-ioc-database.js] and proves
    properties of its feed parser, its merge of the parsed records with the
    previously persisted database, its source report and its transport.

    JavaScript strings are sequences of UTF-16 code units; they are modelled
    as lists of code units.  Values read back from the persisted database
    are JSON values.  The network, the file of the persisted database and
    the clock form an explicit world that the script threads through. *)

From Stdlib Require Import List Bool Arith NArith ZArith Lia.
From Stdlib Require Import Ascii String DecimalString.
From Stdlib Require Import Permutation Sorted.
From Stdlib Require Import Floats.SpecFloat.
Import ListNotations.

Set Warnings "-register-all".

(** ** JavaScript strings *)

Module JsString.

(** A string is the list of its UTF-16 code units. *)
Definition jsstring := list N.

(** A string literal of the script; every literal used is ASCII. *)
Definition lit (s : string) : jsstring :=
  map N_of_ascii (list_ascii_of_string s).

Definition LF : N := 10.          (* line feed *)
Definition QUOTE : N := 34.       (* double quote *)
Definition COMMA : N := 44.       (* comma *)

(** Truthiness of a string: [!s] holds exactly for the empty string. *)
Definition nonEmpty (s : jsstring) : bool :=
  match s with [] => false | _ :: _ => true end.

(** WhiteSpace and LineTerminator code points of ECMAScript, the ones
    that [String.prototype.trim] strips. *)
Definition isWhiteSpace (c : N) : bool :=
  ((9 <=? c) && (c <=? 13)            (* TAB LF VT FF CR *)
   || (c =? 32)                       (* SPACE *)
   || (c =? 160)                      (* NO-BREAK SPACE *)
   || (c =? 5760)                     (* U+1680 *)
   || ((8192 <=? c) && (c <=? 8202))  (* U+2000 .. U+200A *)
   || (c =? 8232) || (c =? 8233)      (* U+2028 U+2029 *)
   || (c =? 8239)                     (* U+202F *)
   || (c =? 8287)                     (* U+205F *)
   || (c =? 12288)                    (* U+3000 *)
   || (c =? 65279))%N.                (* U+FEFF *)

Fixpoint trimStart (s : jsstring) : jsstring :=
  match s with
  | [] => []
  | c :: r => if isWhiteSpace c then trimStart r else s
  end.

Definition trimEnd (s : jsstring) : jsstring := rev (trimStart (rev s)).

(** [s.trim()] *)
Definition trim (s : jsstring) : jsstring := trimEnd (trimStart s).

(** [s.split(sep)] for a separator of one code unit.  The result is never
    empty: [''.split(',')] is [['']]. *)
Fixpoint split (sep : N) (s : jsstring) : list jsstring :=
  match s with
  | [] => [[]]
  | c :: r =>
      if (c =? sep)%N then [] :: split sep r
      else match split sep r with
           | f :: fs => (c :: f) :: fs
           | [] => [[c]]
           end
  end.

(** Comparison of strings by code units, as [<] on strings and the
    default comparison of [Array.prototype.sort] do. *)
Fixpoint compare (a b : jsstring) : comparison :=
  match a, b with
  | [], [] => Eq
  | [], _ :: _ => Lt
  | _ :: _, [] => Gt
  | x :: a', y :: b' =>
      match (x ?= y)%N with
      | Eq => compare a' b'
      | o => o
      end
  end.

Definition eqb (a b : jsstring) : bool :=
  match compare a b with Eq => true | _ => false end.

(** Decimal rendering of a non-negative integer, as a template literal
    renders an integral number below 1e21. *)
Definition decimal (n : N) : jsstring :=
  lit (NilZero.string_of_uint (N.to_uint n)).

End JsString.
Import JsString.

(** ** The feed parser *)

(** State of the scanner of [parseCSVLine]: the fields pushed so far, the
    field being accumulated and the quote mode. *)
Record ScanState := mkScan {
  result : list jsstring;
  current : jsstring;
  inQuotes : bool
}.

Definition scanInit : ScanState := mkScan [] [] false.

(** One iteration of the loop of [parseCSVLine]. *)
Definition scanStep (st : ScanState) (char : N) : ScanState :=
  if (char =? QUOTE)%N then
    mkScan (result st) (current st) (negb (inQuotes st))
  else if (char =? COMMA)%N && negb (inQuotes st) then
    mkScan (result st ++ [trim (current st)]) [] (inQuotes st)
  else
    mkScan (result st) (current st ++ [char]) (inQuotes st).

Definition scan (st : ScanState) (line : jsstring) : ScanState :=
  fold_left scanStep line st.

(** [parseCSVLine(line)]: the loop, then the push of the last field. *)
Definition parseCSVLine (line : jsstring) : list jsstring :=
  let st := scan scanInit line in
  result st ++ [trim (current st)].

Record PackageRecord := mkRecord {
  name : jsstring;
  severity : jsstring;
  affectedVersions : list jsstring;
  sources : list jsstring
}.

(** [field.split(',').map(v => v.trim()).filter(v => v.length > 0)] *)
Definition splitList (field : jsstring) : list jsstring :=
  filter nonEmpty (map trim (split COMMA field)).

(** The body of the loop of [parseConsolidatedCSV] for one element of
    [lines]: the records it pushes (none when the row is skipped by one of
    the two [continue]s).  Destructuring takes the first three fields; a
    missing field is [undefined], which is falsy like the empty string. *)
Definition parseRow (rawLine : jsstring) : list PackageRecord :=
  let line := trim rawLine in
  if negb (nonEmpty line) then []
  else
    let fields := parseCSVLine line in
    let packageName := nth 0 fields [] in
    match nth_error fields 1 with
    | None => []
    | Some packageVersions =>
        if negb (nonEmpty packageName) || negb (nonEmpty packageVersions)
        then []
        else
          let versions := splitList packageVersions in
          let sourceList :=
            match nth_error fields 2 with
            | Some srcs => if nonEmpty srcs then splitList srcs else []
            | None => []
            end in
          [mkRecord packageName (lit "critical") versions sourceList]
    end.

(** [parseConsolidatedCSV(csvContent)]: the loop starts at index 1, after
    the header. *)
Definition parseConsolidatedCSV (csvContent : jsstring) : list PackageRecord :=
  let lines := split LF (trim csvContent) in
  flat_map parseRow (skipn 1 lines).

(** ** JSON values: what [JSON.parse] yields and [JSON.stringify] takes *)

Inductive json :=
| JNull
| JBool (b : bool)
| JNumber (x : spec_float)          (* an IEEE 754 binary64 value *)
| JString (s : jsstring)
| JArray (items : list json)
| JObject (props : list (jsstring * json)).

(** Lookup of a key in a list of properties. *)
Fixpoint assoc {V : Type} (k : jsstring) (l : list (jsstring * V)) : option V :=
  match l with
  | [] => None
  | (k', v) :: r => if eqb k k' then Some v else assoc k r
  end.

(** [v?.key] for the keys of a database ([version], [attackInfo],
    [indicators], [acknowledgements], [dataSource], [sources], ...);
    [None] is [undefined].  On [null] the optional chain yields
    [undefined]; on an object it yields the own property, and none of these
    keys is inherited from [Object.prototype]; a primitive or an array has
    no property of these names. *)
Definition optField (v : json) (key : jsstring) : option json :=
  match v with
  | JObject props => assoc key props
  | _ => None
  end.

(** ToBoolean on a JSON value. *)
Definition truthy (v : json) : bool :=
  match v with
  | JNull => false
  | JBool b => b
  | JNumber (S754_zero _) => false
  | JNumber S754_nan => false
  | JNumber _ => true
  | JString s => nonEmpty s
  | JArray _ => true
  | JObject _ => true
  end.

(** [value || fallback] *)
Definition orElse (value : option json) (fallback : json) : json :=
  match value with
  | Some v => if truthy v then v else fallback
  | None => fallback
  end.

(** ** Objects used as maps *)

(** Values that the counting loop reads or stores. *)
Inductive jsvalue :=
| VUndefined
| VNumber (n : N)                  (* a count; exact below 2^53 *)
| VString (s : jsstring)
| VFunction (fname : jsstring)     (* a built-in method of Object.prototype *)
| VObjectPrototype.                (* Object.prototype itself *)

(** An ordinary object created by the literal [{}]: its own properties in
    creation order.  Its prototype is [Object.prototype]. *)
Definition jsobject := list (jsstring * jsvalue).

(** The data properties of [Object.prototype]; all are built-in functions. *)
Definition objectPrototype : list (jsstring * jsvalue) :=
  [ (lit "constructor", VFunction (lit "Object"));
    (lit "__defineGetter__", VFunction (lit "__defineGetter__"));
    (lit "__defineSetter__", VFunction (lit "__defineSetter__"));
    (lit "hasOwnProperty", VFunction (lit "hasOwnProperty"));
    (lit "__lookupGetter__", VFunction (lit "__lookupGetter__"));
    (lit "__lookupSetter__", VFunction (lit "__lookupSetter__"));
    (lit "isPrototypeOf", VFunction (lit "isPrototypeOf"));
    (lit "propertyIsEnumerable", VFunction (lit "propertyIsEnumerable"));
    (lit "toString", VFunction (lit "toString"));
    (lit "valueOf", VFunction (lit "valueOf"));
    (lit "toLocaleString", VFunction (lit "toLocaleString")) ].

(** The accessor property of [Object.prototype]. *)
Definition protoKey : jsstring := lit "__proto__".

(** [o[key]]: the own property, else the property inherited from
    [Object.prototype]; the getter of [__proto__] returns the prototype. *)
Definition getProp (o : jsobject) (key : jsstring) : jsvalue :=
  match assoc key o with
  | Some v => v
  | None =>
      if eqb key protoKey then VObjectPrototype
      else match assoc key objectPrototype with
           | Some v => v
           | None => VUndefined
           end
  end.

Fixpoint putOwn (o : jsobject) (key : jsstring) (v : jsvalue) : jsobject :=
  match o with
  | [] => [(key, v)]
  | (k, w) :: r => if eqb key k then (k, v) :: r else (k, w) :: putOwn r key v
  end.

(** [o[key] = v] for a number or a string [v]: the setter of [__proto__]
    ignores a value that is neither an object nor [null]; any other key
    updates the own property in place or creates it after the others (the
    inherited data properties are writable). *)
Definition setProp (o : jsobject) (key : jsstring) (v : jsvalue) : jsobject :=
  if eqb key protoKey then o else putOwn o key v.

(** [(v || 0) + 1]: a missing or zero count gives 1, a number is
    incremented, and anything else is converted to a string to which [1]
    is appended. *)
Definition bump (v : jsvalue) : jsvalue :=
  match v with
  | VUndefined => VNumber 1
  | VNumber n => if (n =? 0)%N then VNumber 1 else VNumber (n + 1)
  | VString s => if nonEmpty s then VString (s ++ lit "1") else VNumber 1
  | VFunction f =>
      VString (lit "function " ++ f ++ lit "() { [native code] }" ++ lit "1")
  | VObjectPrototype => VString (lit "[object Object]" ++ lit "1")
  end.

(** An array index: the canonical decimal form of an integer in
    [0, 2^32 - 2]. *)
Definition isDigit (c : N) : bool := ((48 <=? c) && (c <=? 57))%N.

Definition digitsValue (s : jsstring) : N :=
  fold_left (fun acc c => acc * 10 + (c - 48))%N s 0%N.

Definition arrayIndex (key : jsstring) : option N :=
  match key with
  | [] => None
  | c :: r =>
      if forallb isDigit key && (negb (c =? 48)%N || negb (nonEmpty r))
         && (digitsValue key <=? 4294967294)%N
      then Some (digitsValue key) else None
  end.

Definition isArrayIndex (key : jsstring) : bool :=
  match arrayIndex key with Some _ => true | None => false end.

(** [Array.prototype.sort(comparefn)].  The sort is stable; for a
    consistent comparison function this determines its result, which is
    the one of this insertion sort ([x] goes before the first element it
    does not follow).  For an inconsistent comparison function the order is
    implementation-defined. *)
Section ArraySort.
Variable A : Type.
Variable comparefn : A -> A -> Z.

Fixpoint insertSorted (x : A) (l : list A) : list A :=
  match l with
  | [] => [x]
  | y :: r => if (comparefn x y <=? 0)%Z then x :: l else y :: insertSorted x r
  end.

Definition Array_sort (l : list A) : list A := fold_right insertSorted [] l.
End ArraySort.
Arguments insertSorted {A} comparefn x l.
Arguments Array_sort {A} comparefn l.

(** The comparison used by [sort()] without an argument on strings. *)
Definition defaultCompare (a b : jsstring) : Z :=
  match compare a b with Lt => (-1)%Z | Eq => 0%Z | Gt => 1%Z end.

Definition indexCompare (a b : jsstring * jsvalue) : Z :=
  (Z.of_N (digitsValue (fst a)) - Z.of_N (digitsValue (fst b)))%Z.

(** [Object.entries(o)]: own properties whose key is an array index first,
    in ascending numeric order, then the others in creation order. *)
Definition Object_entries (o : jsobject) : list (jsstring * jsvalue) :=
  Array_sort indexCompare (filter (fun p => isArrayIndex (fst p)) o)
  ++ filter (fun p => negb (isArrayIndex (fst p))) o.

(** [Object.keys(o)] *)
Definition Object_keys (o : jsobject) : list jsstring :=
  map fst (Object_entries o).

(** ToNumber on a stored count; [None] is NaN.  Every string that the
    counting loop stores starts with [function], which is no numeric
    literal. *)
Definition toNumber (v : jsvalue) : option Z :=
  match v with
  | VNumber n => Some (Z.of_N n)
  | _ => None
  end.

(** [(a, b) => b[1] - a[1]] as the sort sees it: a NaN result counts as 0. *)
Definition countCompare (a b : jsstring * jsvalue) : Z :=
  match toNumber (snd b), toNumber (snd a) with
  | Some x, Some y => (x - y)%Z
  | _, _ => 0%Z
  end.

(** ** The merge of records and previous database *)

(** The two nested [forEach] loops that fill [sourceCounts]. *)
Definition countSource (counts : jsobject) (source : jsstring) : jsobject :=
  setProp counts source (bump (getProp counts source)).

Definition sourceCounts (packages : list PackageRecord) : jsobject :=
  fold_left (fun counts pkg => fold_left countSource (sources pkg) counts)
            packages [].

(** The entries printed under [Sources aggregated:], in printing order. *)
Definition sourceReport (packages : list PackageRecord)
  : list (jsstring * jsvalue) :=
  Array_sort countCompare (Object_entries (sourceCounts packages)).

Definition defaultVersion : json := JString (lit "2.1.0").

Definition defaultAttackInfo : json :=
  JObject
    [ (lit "name", JString (lit "Shai-Hulud 2.0"));
      (lit "alias", JString (lit "The Second Coming"));
      (lit "firstDetected", JString (lit "2025-11-24T03:16:00Z"));
      (lit "description",
       JString (lit "Self-replicating npm worm targeting credential theft and supply chain compromise.")) ].

Definition defaultIndicators : json := JObject [].
Definition defaultAcknowledgements : json := JArray [].

(** [Object.keys(sourceCounts).sort()] *)
Definition sortedSources (packages : list PackageRecord) : list jsstring :=
  Array_sort defaultCompare (Object_keys (sourceCounts packages)).

Definition packageEntry (pkg : PackageRecord) : json :=
  JObject
    [ (lit "name", JString (name pkg));
      (lit "severity", JString (severity pkg));
      (lit "affectedVersions", JArray (map JString (affectedVersions pkg))) ].

(** The object literal [database] of [updateDatabase]. *)
Definition database (existing : json) (now : jsstring)
           (packages : list PackageRecord) : json :=
  JObject
    [ (lit "version", orElse (optField existing (lit "version")) defaultVersion);
      (lit "lastUpdated", JString now);
      (lit "dataSource",
       JObject
         [ (lit "url",
            JString (lit "https://github.com/DataDog/indicators-of-compromise/tree/main/shai-hulud-2.0"));
           (lit "description",
            JString (lit "Consolidated IOCs from multiple security vendors"));
           (lit "sources", JArray (map JString (sortedSources packages)));
           (lit "fetchedAt", JString now) ]);
      (lit "attackInfo",
       orElse (optField existing (lit "attackInfo")) defaultAttackInfo);
      (lit "indicators",
       orElse (optField existing (lit "indicators")) defaultIndicators);
      (lit "acknowledgements",
       orElse (optField existing (lit "acknowledgements")) defaultAcknowledgements);
      (lit "packages", JArray (map packageEntry packages)) ].

(** ** The world: network, persisted file and clock *)

Inductive JsError := Error (message : jsstring).

Inductive Promise (A : Type) :=
| Resolved (value : A)
| Rejected (reason : JsError).
Arguments Resolved {A} value.
Arguments Rejected {A} reason.

(** How the body of a response ends: [end], or [error]. *)
Inductive BodyEnd := EndOfBody | BodyError (e : JsError).

Record Response := mkResponse {
  statusCode : N;
  statusMessage : jsstring;
  location : option jsstring;      (* [res.headers.location] *)
  chunks : list jsstring;          (* the [data] events, as text *)
  ending : BodyEnd
}.

(** What [https.get(url, callback)] leads to: it throws (an invalid
    argument), the request emits [error], or the callback is called with a
    response. *)
Inductive HttpEvent :=
| GetThrows (e : JsError)
| RequestError (e : JsError)
| Responds (res : Response).

Record World := mkWorld {
  network : list (option jsstring) -> option jsstring -> HttpEvent;
                                   (* answer to a request, given the earlier ones *)
  requests : list (option jsstring);   (* requests issued so far, oldest first *)
  disk : option jsstring;          (* content of OUTPUT_FILE, if readable *)
  writes : list jsstring;          (* contents written so far, oldest first *)
  clock : jsstring                 (* [new Date().toISOString()] *)
}.

Definition CONSOLIDATED_IOC_URL : jsstring :=
  lit "https://raw.githubusercontent.com/DataDog/indicators-of-compromise/main/shai-hulud-2.0/consolidated_iocs.csv".

Definition logRequest (w : World) (url : option jsstring) : World :=
  mkWorld (network w) (requests w ++ [url]) (disk w) (writes w) (clock w).

(** The message of the error built for a status other than 200. *)
Definition httpErrorMessage (res : Response) : jsstring :=
  lit "HTTP " ++ decimal (statusCode res) ++ lit ": " ++ statusMessage res.

(** [fetchUrl(url)].  The promise settles after finitely many requests or
    never (an endless chain of redirects): [fuel] bounds the number of
    requests, and [None] says the promise has not settled within it.  The
    url is [None] when a redirect carries no [Location] header. *)
Fixpoint fetchUrl (fuel : nat) (url : option jsstring) (w : World)
  : option (Promise jsstring) * World :=
  match fuel with
  | O => (None, w)
  | S fuel' =>
      let w' := logRequest w url in
      match network w (requests w) url with
      | GetThrows e => (Some (Rejected e), w')
      | RequestError e => (Some (Rejected e), w')
      | Responds res =>
          if (statusCode res =? 301)%N || (statusCode res =? 302)%N then
            fetchUrl fuel' (location res) w'
          else if negb (statusCode res =? 200)%N then
            (Some (Rejected (Error (httpErrorMessage res))), w')
          else
            match ending res with
            | EndOfBody => (Some (Resolved (List.concat (chunks res))), w')
            | BodyError e => (Some (Rejected e), w')
            end
      end
  end.

(** What one run of the script did up to its write. *)
Record SyncRun := mkRun {
  parsed : list PackageRecord;             (* [packages] *)
  report : list (jsstring * jsvalue);      (* the printed source counts *)
  written : json                           (* the object [database] written *)
}.

Inductive SyncOutcome :=
| Unsettled                  (* the fetch has not settled within the fuel *)
| Aborted (e : JsError)      (* the fetch was rejected: the run ends there *)
| Wrote (run : SyncRun).     (* the run reached [fs.writeFileSync] *)

Section Sync.
(** [JSON.parse]; [None] when it throws. *)
Variable JSON_parse : jsstring -> option json.
(** [v => JSON.stringify(v, null, 2)] *)
Variable JSON_stringify : json -> jsstring.

(** [loadExistingDatabase()]: [null] when the file cannot be read or
    parsed. *)
Definition loadExistingDatabase (w : World) : json :=
  match disk w with
  | None => JNull
  | Some content =>
      match JSON_parse content with
      | Some v => v
      | None => JNull
      end
  end.

Definition writeFile (w : World) (content : jsstring) : World :=
  mkWorld (network w) (requests w) (Some content) (writes w ++ [content])
          (clock w).

(** [updateDatabase()] up to and including the write.  The console
    output other than the source report, and the comparison with the
    previous snapshot printed after the write, are left out. *)
Definition updateDatabase (fuel : nat) (w : World) : SyncOutcome * World :=
  match fetchUrl fuel (Some CONSOLIDATED_IOC_URL) w with
  | (None, w1) => (Unsettled, w1)
  | (Some (Rejected e), w1) => (Aborted e, w1)
  | (Some (Resolved csvContent), w1) =>
      let packages := parseConsolidatedCSV csvContent in
      let existing := loadExistingDatabase w1 in
      let now := clock w1 in
      let db := database existing now packages in
      let w2 := writeFile w1 (JSON_stringify db ++ [LF]) in
      (Wrote (mkRun packages (sourceReport packages) db), w2)
  end.
End Sync.

(** ** Vocabulary of the statements *)

(** A string without a double quote. *)
Definition quoteFree (s : jsstring) : Prop := ~ In QUOTE s.

(** A code unit that a versions field can hold without yielding a
    version: a comma or white space. *)
Definition separatorOrBlank (c : N) : Prop :=
  c = COMMA \/ isWhiteSpace c = true.

(** The curated fields with the seed of each. *)
Definition curatedDefaults : list (jsstring * json) :=
  [ (lit "attackInfo", defaultAttackInfo);
    (lit "indicators", defaultIndicators);
    (lit "acknowledgements", defaultAcknowledgements) ].

(** The sources of all records, in the order in which the two loops visit
    them. *)
Definition observedSources (packages : list PackageRecord) : list jsstring :=
  flat_map sources packages.

(** How often a source occurs in a list of sources. *)
Definition occurrences (s : jsstring) (l : list jsstring) : N :=
  N.of_nat (Datatypes.length (filter (eqb s) l)).

(** The distinct sources of a list, each at the place of its first
    occurrence. *)
Definition noteFirst (seen : list jsstring) (s : jsstring) : list jsstring :=
  if existsb (eqb s) seen then seen else seen ++ [s].

Definition firstOccurrences (l : list jsstring) : list jsstring :=
  fold_left noteFirst l [].

(** How many records list a source among their sources. *)
Definition recordsAttributing (s : jsstring) (packages : list PackageRecord)
  : N :=
  N.of_nat
    (Datatypes.length
       (filter (fun pkg => existsb (eqb s) (sources pkg)) packages)).

(** A key that is neither an array index nor the name of a property of
    [Object.prototype]. *)
Definition plainKey (key : jsstring) : bool :=
  negb (isArrayIndex key)
  && negb (eqb key protoKey)
  && match assoc key objectPrototype with Some _ => false | None => true end.

(** The sources that reach the keys of the object of counts. *)
Definition notProto (s : jsstring) : bool := negb (eqb s protoKey).

(** What the counting loop stores: a number, or a string that starts with
    [function ]. *)
Definition storedValue (v : jsvalue) : Prop :=
  (exists n, v = VNumber n)
  \/ (exists rest, v = VString (lit "function " ++ rest)).

(** The count that an entry of the report carries, and the same as the
    integer that the comparison subtracts. *)
Definition countOf (entry : jsstring * jsvalue) : N :=
  match snd entry with VNumber n => n | _ => 0%N end.

Definition countKey (entry : jsstring * jsvalue) : Z := Z.of_N (countOf entry).

(** Comparison by a key, largest first, and the order it sorts into. *)
Definition descendingBy {A : Type} (key : A -> Z) (a b : A) : Z :=
  (key b - key a)%Z.

Definition notBelow {A : Type} (key : A -> Z) (a b : A) : Prop :=
  (key b <= key a)%Z.

(** Order of strings by code units: not above, and strictly below. *)
Definition notAbove (a b : jsstring) : Prop := compare a b <> Gt.
Definition strictlyBelow (a b : jsstring) : Prop := compare a b = Lt.

(** ** Feeds used in the statements *)

Definition feedHeader : jsstring := lit "name,versions,sources".

(** The feed made of a header row and the given data rows. *)
Definition feedOf (header : jsstring) (rows : list jsstring) : jsstring :=
  header ++ flat_map (fun row => LF :: row) rows.

(** The row [pkg-a,<q>1.0.0,1.0.1<q>,vendorX], [<q>] the double quote. *)
Definition quotedRow : jsstring :=
  lit "pkg-a," ++ [QUOTE] ++ lit "1.0.0,1.0.1" ++ [QUOTE] ++ lit ",vendorX".

Definition quotedFeed : jsstring := feedOf feedHeader [quotedRow].

(** The row [pkg-b,<q>,<q>,vendorX]: its versions field is one quoted
    comma. *)
Definition commaVersionsRow : jsstring :=
  lit "pkg-b," ++ [QUOTE] ++ lit "," ++ [QUOTE] ++ lit ",vendorX".

(** Three rows with the sources [wiz,datadog], [datadog] and [socket]. *)
Definition vendorFeed : jsstring :=
  feedOf feedHeader
    [ lit "pkg-a,1.0.0," ++ [QUOTE] ++ lit "wiz,datadog" ++ [QUOTE];
      lit "pkg-b,2.0.0,datadog";
      lit "pkg-c,1.0.0,socket" ].

(** One row that names the source [vendorX] twice. *)
Definition repeatedSourceFeed : jsstring :=
  feedOf feedHeader
    [ lit "pkg-a,1.0.0," ++ [QUOTE] ++ lit "vendorX,vendorX" ++ [QUOTE] ].

(** Two rows, the first with source [b], the second with source [7]. *)
Definition numberedSourceFeed : jsstring :=
  feedOf feedHeader [ lit "pkg-a,1.0.0,b"; lit "pkg-b,1.0.0,7" ].

(** One row whose source is [__proto__]. *)
Definition protoSourceFeed : jsstring :=
  feedOf feedHeader [ lit "pkg-a,1.0.0,__proto__" ].

(** ** Previous databases used in the statements *)

(** A previous database of the declared type [MasterPackages], whose
    optional [acknowledgements] is not there. *)
Definition databaseWithoutAcknowledgements : json :=
  JObject
    [ (lit "version", JString (lit "2.0.0"));
      (lit "lastUpdated", JString (lit "2025-11-25T00:00:00.000Z"));
      (lit "attackInfo",
       JObject [ (lit "name", JString (lit "Shai-Hulud 2.0"));
                 (lit "alias", JString (lit "Sandworm"));
                 (lit "firstDetected", JString (lit "2025-11-24T03:16:00Z"));
                 (lit "description", JString (lit "npm worm")) ]);
      (lit "indicators",
       JObject [ (lit "maliciousFiles", JArray [JString (lit "setup_bun.js")]) ]);
      (lit "packages", JArray []) ].

(** A previous database whose [version] is the empty string. *)
Definition databaseWithEmptyVersion : json :=
  JObject
    [ (lit "version", JString []);
      (lit "lastUpdated", JString (lit "2025-11-25T00:00:00.000Z"));
      (lit "attackInfo", JObject [ (lit "alias", JString (lit "Sandworm")) ]);
      (lit "indicators", JObject []);
      (lit "acknowledgements", JArray []);
      (lit "packages", JArray []) ].

(** A previous database whose [indicators] is [null]. *)
Definition databaseWithNullIndicators : json :=
  JObject
    [ (lit "version", JString (lit "2.0.0"));
      (lit "attackInfo", JObject [ (lit "alias", JString (lit "Sandworm")) ]);
      (lit "indicators", JNull);
      (lit "packages", JArray []) ].

(** ** Worlds used in the statements *)

(** A network that answers by a fixed table of urls, whatever was
    requested before. *)
Definition tableNetwork (table : list (jsstring * Response))
  : list (option jsstring) -> option jsstring -> HttpEvent :=
  fun _ url =>
    match url with
    | None => GetThrows (Error (lit "Invalid URL"))
    | Some u =>
        match assoc u table with
        | Some res => Responds res
        | None => RequestError (Error (lit "getaddrinfo ENOTFOUND"))
        end
    end.

Definition worldOf (table : list (jsstring * Response))
           (file : option jsstring) (now : jsstring) : World :=
  mkWorld (tableNetwork table) [] file [] now.

Definition notFound : Response :=
  mkResponse 404 (lit "Not Found") None [lit "404: Not Found"] EndOfBody.

Definition mirrorUrl : jsstring :=
  lit "https://mirror.example/consolidated_iocs.csv".

Definition movedTo (target : jsstring) : Response :=
  mkResponse 302 (lit "Found") (Some target) [] EndOfBody.

Definition okBody (body : list jsstring) : Response :=
  mkResponse 200 (lit "OK") None body EndOfBody.

(** Stand-ins for the two built-ins where a statement needs concrete
    ones: a parser that rejects every text, and a printer that forgets its
    argument. *)
Definition parseNothing : jsstring -> option json := fun _ => None.
Definition printBraces : json -> jsstring := fun _ => lit "{}".

Definition instant1 : jsstring := lit "2025-12-01T00:00:00.000Z".
Definition instant2 : jsstring := lit "2025-12-02T00:00:00.000Z".

(** The feed url answers 302 to the mirror, the mirror answers 200. *)
Definition redirectWorld : World :=
  worldOf [ (CONSOLIDATED_IOC_URL, movedTo mirrorUrl);
            (mirrorUrl, okBody [feedHeader; [LF]; quotedRow]) ]
          None instant1.

(** The feed url answers 404; a database is on disk. *)
Definition notFoundWorld : World :=
  worldOf [ (CONSOLIDATED_IOC_URL, notFound) ] (Some (lit "{}")) instant1.

(** First run: nothing on disk.  Later run: a file on disk, one earlier
    request and one earlier write, a later clock, the body in three
    chunks. *)
Definition firstRunWorld : World :=
  worldOf [ (CONSOLIDATED_IOC_URL, okBody [quotedFeed]) ] None instant1.

Definition laterRunWorld : World :=
  mkWorld (tableNetwork [ (CONSOLIDATED_IOC_URL,
                           okBody [feedHeader; [LF]; quotedRow]) ])
          [Some CONSOLIDATED_IOC_URL] (Some (lit "{}")) [lit "{}"] instant2.

(** ** Vocabulary of the further properties *)

Definition CR : N := 13.          (* carriage return *)

(** A string of white space only. *)
Definition blank (s : jsstring) : Prop :=
  Forall (fun c => isWhiteSpace c = true) s.

(** The pieces of a split with a string put before the first piece. *)
Definition prependFirst (pre : jsstring) (pieces : list jsstring)
  : list jsstring :=
  match pieces with
  | [] => [pre]
  | p :: ps => (pre ++ p) :: ps
  end.

(** An item of a list field as a consumer wants it: not empty, without
    white space around it, without comma and without double quote. *)
Definition cleanItem (s : jsstring) : Prop :=
  s <> [] /\ trim s = s /\ ~ In COMMA s /\ ~ In QUOTE s.

(** Three data rows: the quoted row, an empty row and a row without
    sources. *)
Definition threeRows : list jsstring :=
  [ quotedRow; []; lit "pkg-b,2.0.0" ].

(** The world with another list of requests issued so far. *)
Definition withRequests (w : World) (hist : list (option jsstring)) : World :=
  mkWorld (network w) hist (disk w) (writes w) (clock w).

(** [hops w hist url k hist' url']: from the requests [hist] issued so
    far, the request to [url] and the [k - 1] requests that follow it are
    each answered by a redirect (301 or 302); then the requests issued are
    [hist'] and the [Location] of the last answer is [url']. *)
Inductive hops (w : World)
  : list (option jsstring) -> option jsstring -> nat ->
    list (option jsstring) -> option jsstring -> Prop :=
| hops_none : forall hist url, hops w hist url 0 hist url
| hops_more : forall hist url res k hist' url',
    network w hist url = Responds res ->
    statusCode res = 301%N \/ statusCode res = 302%N ->
    hops w (hist ++ [url]) (location res) k hist' url' ->
    hops w hist url (S k) hist' url'.

(** A network that answers every request by a redirect. *)
Definition alwaysRedirects (w : World) : Prop :=
  forall hist url,
    exists res,
      network w hist url = Responds res
      /\ (statusCode res = 301%N \/ statusCode res = 302%N).

(** The feed url redirects to itself. *)
Definition loopWorld : World :=
  mkWorld (fun _ _ => Responds (movedTo CONSOLIDATED_IOC_URL))
          [] (Some (lit "{}")) [] instant1.


(** ** The comparison with the previous snapshot and the end of the run *)

(** A number that [=== 1] accepts: a finite float of value one. *)
Definition isOne (x : spec_float) : bool :=
  match x with
  | S754_finite false m e => (e <=? 0)%Z && (Z.pos m =? 2 ^ (- e))%Z
  | _ => false
  end.

(** [v?.length === 1] for a property value [v], [None] being [undefined]:
    [undefined] and [null] end the optional chain; an array and a string
    have their length; an object has the property [length] if it holds
    one; a number or a boolean has none. *)
Definition lengthIsOne (v : option json) : bool :=
  match v with
  | Some (JArray items) => Nat.eqb (Datatypes.length items) 1
  | Some (JString s) => Nat.eqb (Datatypes.length s) 1
  | Some (JObject props) =>
      match assoc (lit "length") props with
      | Some (JNumber x) => isOne x
      | _ => false
      end
  | _ => false
  end.

(** [v[0] === '*'], evaluated only after the test of the length. *)
Definition firstIsStar (v : option json) : bool :=
  match v with
  | Some (JArray (JString s :: _)) => eqb s (lit "*")
  | Some (JString (c :: _)) => (c =? 42)%N
  | Some (JObject props) =>
      match assoc (lit "0") props with
      | Some (JString s) => eqb s (lit "*")
      | _ => false
      end
  | _ => false
  end.

(** The callback of [filter],
    [p => p.affectedVersions?.length === 1 && p.affectedVersions[0] === '*'];
    [None] when it throws: reading a property of [null].  A primitive and
    an array have no property [affectedVersions]. *)
Definition isWildcardEntry (p : json) : option bool :=
  match p with
  | JNull => None
  | JObject props =>
      let v := assoc (lit "affectedVersions") props in
      Some (lengthIsOne v && firstIsStar v)
  | _ => Some false
  end.

(** [items.filter(callback).length]; [None] when the callback throws. *)
Fixpoint countWildcards (items : list json) : option nat :=
  match items with
  | [] => Some 0%nat
  | p :: rest =>
      match isWildcardEntry p with
      | None => None
      | Some b =>
          match countWildcards rest with
          | None => None
          | Some n => Some (if b then S n else n)
          end
      end
  end.

Definition nullRead : JsError :=
  Error (lit "Cannot read properties of null (reading 'affectedVersions')").

Definition notAFunction : JsError :=
  Error (lit "existing.packages.filter is not a function").

Inductive Comparison :=
| NotCompared                                  (* the block is skipped *)
| Compared (diff : Z) (oldWildcards : nat)     (* both numbers are printed *)
| ComparisonThrows (e : JsError).

(** The block [if (existing?.packages) { ... }] that follows the write:
    [diff] is [newCount - oldCount]; only an array has [filter]. *)
Definition comparePrevious (existing : json) (newCount : nat) : Comparison :=
  match optField existing (lit "packages") with
  | None => NotCompared
  | Some v =>
      if truthy v then
        match v with
        | JArray items =>
            match countWildcards items with
            | Some n =>
                Compared (Z.of_nat newCount - Z.of_nat (Datatypes.length items)) n
            | None => ComparisonThrows nullRead
            end
        | _ => ComparisonThrows notAFunction
        end
      else NotCompared
  end.


Section Script.
Variable JSON_parse : jsstring -> option json.
Variable JSON_stringify : json -> jsstring.


End Script.

(** The records whose versions are the single wildcard. *)
Definition wildcardRecord (r : PackageRecord) : bool :=
  match affectedVersions r with
  | [v] => eqb v (lit "*")
  | _ => false
  end.

(** A previous database whose [packages] is a string, and a parser that
    yields it. *)
Definition databaseWithLegacyPackages : json :=
  JObject [ (lit "version", JString (lit "1.0.0"));
            (lit "packages", JString (lit "see packages.json")) ].



(** ** The declared shapes of [types.ts], as checks on JSON values

    A value has the shape of an interface when each required member is
    there with a value of its type and each optional member that is there
    has a value of its type; further members are allowed.  [null] is of
    no member type (strict null checks). *)

Definition isJString (v : json) : bool :=
  match v with JString _ => true | _ => false end.

Definition isJNumber (v : json) : bool :=
  match v with JNumber _ => true | _ => false end.

Definition isArrayOf (check : json -> bool) (v : json) : bool :=
  match v with JArray items => forallb check items | _ => false end.

(** [Record<string, T>] *)
Definition isRecordOf (check : json -> bool) (v : json) : bool :=
  match v with
  | JObject props => forallb (fun kv => check (snd kv)) props
  | _ => false
  end.

Definition member (check : json -> bool) (key : jsstring) (v : json) : bool :=
  match optField v key with Some x => check x | None => false end.

Definition optionalMember (check : json -> bool) (key : jsstring) (v : json)
  : bool :=
  match v with
  | JObject props =>
      match assoc key props with Some x => check x | None => true end
  | _ => false
  end.

(** ['critical' | 'high' | 'medium' | 'low'] *)
Definition isSeverity (v : json) : bool :=
  match v with
  | JString s =>
      eqb s (lit "critical") || eqb s (lit "high")
      || eqb s (lit "medium") || eqb s (lit "low")
  | _ => false
  end.

(** [interface PackageEntry] *)
Definition isPackageEntry (v : json) : bool :=
  member isJString (lit "name") v
  && member isSeverity (lit "severity") v
  && member (isArrayOf isJString) (lit "affectedVersions") v.

(** [interface FileHash] *)
Definition isFileHash (v : json) : bool :=
  optionalMember isJString (lit "sha1") v
  && member (fun x => isJString x || isArrayOf isJString x) (lit "sha256") v.

Definition isAttackInfo (v : json) : bool :=
  member isJString (lit "name") v
  && member isJString (lit "alias") v
  && member isJString (lit "firstDetected") v
  && member isJString (lit "description") v.

Definition isGitHubIndicators (v : json) : bool :=
  member isJString (lit "runnerName") v
  && member isJString (lit "repoDescription") v
  && optionalMember isJString (lit "repoNamePattern") v
  && optionalMember isJString (lit "workflowTrigger") v.

Definition isIndicators (v : json) : bool :=
  member (isArrayOf isJString) (lit "maliciousFiles") v
  && member (isArrayOf isJString) (lit "maliciousWorkflows") v
  && member (isRecordOf isFileHash) (lit "fileHashes") v
  && member isGitHubIndicators (lit "gitHubIndicators") v
  && optionalMember (isArrayOf isJString) (lit "runnerPaths") v
  && optionalMember (isArrayOf isJString) (lit "credentialPaths") v
  && optionalMember (isArrayOf isJString) (lit "primaryInfectionVectors") v
  && optionalMember (isArrayOf isJString) (lit "mavenPackages") v.

Definition isStats (v : json) : bool :=
  member isJNumber (lit "totalUniquePackages") v
  && member (isRecordOf isJNumber) (lit "byOrganization") v.

Definition isDataSource (v : json) : bool :=
  member isJString (lit "url") v
  && member isJString (lit "description") v
  && member (isArrayOf isJString) (lit "sources") v
  && member isJString (lit "fetchedAt") v.

Definition isResearcher (v : json) : bool :=
  member isJString (lit "org") v && member isJString (lit "github") v.

Definition isAcknowledgements (v : json) : bool :=
  member (isArrayOf isResearcher) (lit "securityResearchers") v.

(** [interface MasterPackages] *)
Definition isMasterPackages (v : json) : bool :=
  member isJString (lit "version") v
  && member isJString (lit "lastUpdated") v
  && member isAttackInfo (lit "attackInfo") v
  && member isIndicators (lit "indicators") v
  && optionalMember isStats (lit "stats") v
  && member (isArrayOf isPackageEntry) (lit "packages") v
  && optionalMember (isArrayOf isJString) (lit "sources") v
  && optionalMember isDataSource (lit "dataSource") v
  && optionalMember isAcknowledgements (lit "acknowledgements") v.

(** A previous database of the declared shape, with all its members. *)
Definition typedDatabase : json :=
  JObject
    [ (lit "version", JString (lit "2.0.0"));
      (lit "lastUpdated", JString (lit "2025-11-25T00:00:00.000Z"));
      (lit "attackInfo",
       JObject [ (lit "name", JString (lit "Shai-Hulud 2.0"));
                 (lit "alias", JString (lit "Sandworm"));
                 (lit "firstDetected", JString (lit "2025-11-24T03:16:00Z"));
                 (lit "description", JString (lit "npm worm")) ]);
      (lit "indicators",
       JObject
         [ (lit "maliciousFiles", JArray [JString (lit "setup_bun.js")]);
           (lit "maliciousWorkflows", JArray []);
           (lit "fileHashes",
            JObject [ (lit "setup_bun.js",
                       JObject [ (lit "sha256", JString (lit "a3894003")) ]) ]);
           (lit "gitHubIndicators",
            JObject [ (lit "runnerName", JString (lit "SHA1HULUD"));
                      (lit "repoDescription",
                       JString (lit "Sha1-Hulud: The Second Coming.")) ]) ]);
      (lit "stats",
       JObject [ (lit "totalUniquePackages", JNumber (S754_finite false 1 0));
                 (lit "byOrganization", JObject []) ]);
      (lit "packages", JArray []);
      (lit "acknowledgements",
       JObject [ (lit "securityResearchers",
                  JArray [ JObject [ (lit "org", JString (lit "Wiz"));
                                     (lit "github", JString (lit "wiz-sec")) ] ]) ]) ].



(** * Properties *)

(** ** Strings *)

Lemma trimStart_incl (s : jsstring) (c : N) : In c (trimStart s) -> In c s.
Proof.
  induction s as [|x r IH]; simpl; [tauto|].
  destruct (isWhiteSpace x); simpl; tauto.
Qed.

Lemma trim_incl (s : jsstring) (c : N) : In c (trim s) -> In c s.
Proof.
  unfold trim, trimEnd. intros H.
  apply in_rev in H. apply trimStart_incl in H.
  apply in_rev in H. now apply trimStart_incl.
Qed.

Lemma trimStart_head (s : jsstring) :
  trimStart s = [] \/
  exists c r, trimStart s = c :: r /\ isWhiteSpace c = false.
Proof.
  induction s as [|x r IH]; simpl; [now left|].
  destruct (isWhiteSpace x) eqn:E; [exact IH|].
  right. now exists x, r.
Qed.

Lemma trimStart_fixed (c : N) (r : jsstring) :
  isWhiteSpace c = false -> trimStart (c :: r) = c :: r.
Proof. intros E. simpl. now rewrite E. Qed.

Lemma trimStart_idem (s : jsstring) : trimStart (trimStart s) = trimStart s.
Proof.
  destruct (trimStart_head s) as [E | (c & r & E & W)]; rewrite E.
  - reflexivity.
  - now apply trimStart_fixed.
Qed.

Lemma trimStart_snoc (s : jsstring) (c : N) :
  isWhiteSpace c = false -> trimStart (s ++ [c]) = trimStart s ++ [c].
Proof.
  intros W. induction s as [|x r IH]; simpl.
  - now rewrite W.
  - destruct (isWhiteSpace x); [exact IH | reflexivity].
Qed.

Lemma trimStart_app (a b : jsstring) :
  trimStart a <> [] -> trimStart (a ++ b) = trimStart a ++ b.
Proof.
  induction a as [|x r IH]; simpl; [congruence|].
  destruct (isWhiteSpace x); [exact IH | reflexivity].
Qed.

Lemma trimEnd_cons (c : N) (r : jsstring) :
  isWhiteSpace c = false -> trimEnd (c :: r) = c :: trimEnd r.
Proof.
  intros W. unfold trimEnd. simpl.
  rewrite trimStart_snoc by assumption. rewrite rev_app_distr. reflexivity.
Qed.

Lemma trimEnd_idem (s : jsstring) : trimEnd (trimEnd s) = trimEnd s.
Proof.
  unfold trimEnd. now rewrite rev_involutive, trimStart_idem.
Qed.

Lemma trimEnd_app (a b : jsstring) :
  trimEnd b <> [] -> trimEnd (a ++ b) = a ++ trimEnd b.
Proof.
  intros H. unfold trimEnd in *. rewrite rev_app_distr, trimStart_app.
  - now rewrite rev_app_distr, rev_involutive.
  - intros E. apply H. now rewrite E.
Qed.

(** Trimming a trimmed string changes nothing. *)
Lemma trim_idem (s : jsstring) : trim (trim s) = trim s.
Proof.
  unfold trim.
  destruct (trimStart_head s) as [E | (c & r & E & W)]; rewrite E.
  - reflexivity.
  - rewrite trimEnd_cons by assumption.
    rewrite trimStart_fixed by assumption.
    rewrite trimEnd_cons by assumption.
    now rewrite trimEnd_idem.
Qed.

Lemma split_nonempty (sep : N) (s : jsstring) : split sep s <> [].
Proof.
  destruct s as [|c r]; simpl; [discriminate|].
  destruct (c =? sep)%N; [discriminate|].
  destruct (split sep r); discriminate.
Qed.

(** A separator after a piece free of it ends the first field. *)
Lemma split_app_sep (sep : N) (a b : jsstring) :
  ~ In sep a -> split sep (a ++ sep :: b) = a :: split sep b.
Proof.
  induction a as [|x r IH]; simpl; intros H.
  - now rewrite N.eqb_refl.
  - destruct (N.eqb_spec x sep) as [->|_]; [tauto|].
    rewrite IH by tauto. reflexivity.
Qed.

(** ** Equality and order of strings *)

Lemma compare_eq_iff (a b : jsstring) : compare a b = Eq <-> a = b.
Proof.
  revert b. induction a as [|x a IH]; intros [|y b]; simpl;
    try (split; [discriminate | discriminate]); [tauto|].
  destruct (N.compare_spec x y) as [->|H|H].
  - rewrite IH. split; [now intros -> | now intros [= ->]].
  - split; [discriminate|]. intros [= -> _]. lia.
  - split; [discriminate|]. intros [= -> _]. lia.
Qed.

Lemma eqb_eq (a b : jsstring) : eqb a b = true <-> a = b.
Proof.
  unfold eqb. rewrite <- compare_eq_iff.
  destruct (compare a b); split; congruence.
Qed.

Lemma eqb_refl (a : jsstring) : eqb a a = true.
Proof. now apply eqb_eq. Qed.

Lemma eqb_neq (a b : jsstring) : eqb a b = false <-> a <> b.
Proof.
  rewrite <- eqb_eq. destruct (eqb a b); split; congruence.
Qed.

Lemma eqb_sym (a b : jsstring) : eqb a b = eqb b a.
Proof.
  destruct (eqb a b) eqn:E.
  - apply eqb_eq in E. subst. symmetry. apply eqb_refl.
  - apply eqb_neq in E. symmetry. apply eqb_neq. congruence.
Qed.

Lemma compare_antisym (a b : jsstring) :
  compare b a = CompOpp (compare a b).
Proof.
  revert b. induction a as [|x a IH]; intros [|y b]; simpl; try reflexivity.
  rewrite (N.compare_antisym x y).
  destruct (x ?= y)%N; simpl; [apply IH | reflexivity | reflexivity].
Qed.

Lemma existsb_eqb_In (s : jsstring) (l : list jsstring) :
  existsb (eqb s) l = true <-> In s l.
Proof.
  rewrite existsb_exists. split.
  - intros (x & H & E). apply eqb_eq in E. now subst.
  - intros H. exists s. split; [assumption | apply eqb_refl].
Qed.

Lemma existsb_eqb_notIn (s : jsstring) (l : list jsstring) :
  existsb (eqb s) l = false <-> ~ In s l.
Proof.
  rewrite <- existsb_eqb_In. destruct (existsb (eqb s) l); split; congruence.
Qed.

(** ** The scanner of [parseCSVLine] *)

Lemma scanStep_quoteFree (st : ScanState) (char : N) :
  Forall quoteFree (result st) -> quoteFree (current st) ->
  Forall quoteFree (result (scanStep st char)) /\
  quoteFree (current (scanStep st char)).
Proof.
  intros Hr Hc. unfold scanStep.
  destruct (N.eqb_spec char QUOTE) as [->|Hq]; simpl; [tauto|].
  destruct ((char =? COMMA)%N && negb (inQuotes st)); simpl.
  - split; [|unfold quoteFree; simpl; tauto].
    apply Forall_app. split; [assumption|].
    constructor; [|constructor].
    intros H. apply Hc. now apply trim_incl.
  - split; [assumption|].
    intros H. apply in_app_or in H. destruct H as [H|[H|[]]].
    + now apply Hc.
    + now apply Hq.
Qed.

Lemma scan_quoteFree (line : jsstring) (st : ScanState) :
  Forall quoteFree (result st) -> quoteFree (current st) ->
  Forall quoteFree (result (scan st line)) /\
  quoteFree (current (scan st line)).
Proof.
  revert st. induction line as [|c r IH]; intros st Hr Hc; simpl; [tauto|].
  destruct (scanStep_quoteFree st c Hr Hc) as [Hr' Hc'].
  now apply IH.
Qed.

Lemma scan_app (a b : jsstring) (st : ScanState) :
  scan st (a ++ b) = scan (scan st a) b.
Proof. unfold scan. apply fold_left_app. Qed.

(** Two quotes in a row leave the scanner where it was. *)
Lemma scanStep_quote_quote (st : ScanState) :
  scanStep (scanStep st QUOTE) QUOTE = st.
Proof.
  destruct st as [r c q]. unfold scanStep. simpl.
  now rewrite negb_involutive.
Qed.

Lemma scanStep_trimmed (st : ScanState) (char : N) :
  Forall (fun f => trim f = f) (result st) ->
  Forall (fun f => trim f = f) (result (scanStep st char)).
Proof.
  intros H. unfold scanStep.
  destruct (char =? QUOTE)%N; simpl; [assumption|].
  destruct ((char =? COMMA)%N && negb (inQuotes st)); simpl; [|assumption].
  apply Forall_app. split; [assumption|].
  constructor; [apply trim_idem | constructor].
Qed.

Lemma scan_trimmed (line : jsstring) (st : ScanState) :
  Forall (fun f => trim f = f) (result st) ->
  Forall (fun f => trim f = f) (result (scan st line)).
Proof.
  revert st. induction line as [|c r IH]; intros st H; simpl; [assumption|].
  apply IH. now apply scanStep_trimmed.
Qed.

Lemma parseCSVLine_trimmed (line f : jsstring) :
  In f (parseCSVLine line) -> trim f = f.
Proof.
  unfold parseCSVLine. intros H. apply in_app_or in H.
  destruct H as [H|[<-|[]]].
  - pose proof (scan_trimmed line scanInit (Forall_nil _)) as A.
    rewrite Forall_forall in A. now apply A.
  - apply trim_idem.
Qed.

(** Inside quotes and up to the next quote, every code unit, a comma
    too, is appended to the current field. *)
Lemma scan_inside_quotes (rest : jsstring) (st : ScanState) :
  inQuotes st = true -> ~ In QUOTE rest ->
  scan st rest = mkScan (result st) (current st ++ rest) true.
Proof.
  revert st. induction rest as [|c r IH]; intros st Hq Hn; simpl.
  - rewrite app_nil_r. destruct st; simpl in *. now subst.
  - assert (E : scanStep st c = mkScan (result st) (current st ++ [c]) true).
    { unfold scanStep. destruct (N.eqb_spec c QUOTE) as [->|_].
      - exfalso. apply Hn. now left.
      - rewrite Hq, andb_false_r. reflexivity. }
    rewrite E, IH; simpl; [|reflexivity|intros H; apply Hn; now right].
    now rewrite <- app_assoc.
Qed.

(** C10. No field produced by the quote-aware scanner contains a double
    quote: a quote only toggles the mode.  Hence a pair of adjacent quotes
    anywhere in a line contributes nothing to the fields; and after a quote
    that is never closed the rest of the line, commas included, goes to the
    last field, which is pushed when the line ends: the list of fields is
    complete. *)
Theorem parseCSVLine_consumes_quotes :
  (forall line f, In f (parseCSVLine line) -> ~ In QUOTE f)
  /\ (forall before after,
        parseCSVLine (before ++ [QUOTE; QUOTE] ++ after)
        = parseCSVLine (before ++ after))
  /\ (forall before rest,
        inQuotes (scan scanInit before) = false -> ~ In QUOTE rest ->
        parseCSVLine (before ++ [QUOTE] ++ rest)
        = result (scan scanInit before)
          ++ [trim (current (scan scanInit before) ++ rest)]).
Proof.
  split; [|split].
  - intros line f H.
    assert (A : Forall quoteFree (result scanInit)) by constructor.
    assert (B : quoteFree (current scanInit)) by (intros []).
    destruct (scan_quoteFree line scanInit A B) as [Hr Hc].
    unfold parseCSVLine in H. apply in_app_or in H.
    destruct H as [H|[<-|[]]].
    + rewrite Forall_forall in Hr. now apply Hr.
    + intros Q. apply Hc. now apply trim_incl.
  - intros before after. unfold parseCSVLine.
    rewrite !scan_app. simpl scan at 2 5.
    now rewrite scanStep_quote_quote.
  - intros before rest Hq Hn. unfold parseCSVLine.
    rewrite !scan_app. simpl scan at 2 5.
    set (st := scan scanInit before) in *.
    assert (E : scanStep st QUOTE = mkScan (result st) (current st) true).
    { unfold scanStep. simpl. now rewrite Hq. }
    rewrite E, scan_inside_quotes by (simpl; auto). reflexivity.
Qed.

Lemma parseCSVLine_consumes_quotes_witness :
  ~ In QUOTE (lit "b,c")
  /\ parseCSVLine (lit "a," ++ [QUOTE] ++ lit "b,c") = [lit "a"; lit "b,c"].
Proof.
  split.
  - apply (proj1 parseCSVLine_consumes_quotes
             (lit "a," ++ [QUOTE] ++ lit "b,c") (lit "b,c")).
    vm_compute. right. now left.
  - apply (proj2 (proj2 parseCSVLine_consumes_quotes) (lit "a,") (lit "b,c")).
    + reflexivity.
    + vm_compute. intros H. repeat (destruct H as [H|H]; [discriminate|]).
      exact H.
Defined.

(** ** The feed parser *)

Lemma parseRow_name_nonEmpty (row : jsstring) (r : PackageRecord) :
  In r (parseRow row) -> nonEmpty (name r) = true.
Proof.
  unfold parseRow. cbv zeta.
  destruct (nonEmpty (trim row)); cbn [negb]; [|intros []].
  destruct (nth_error (parseCSVLine (trim row)) 1) as [pv|]; [|intros []].
  destruct (nonEmpty (nth 0 (parseCSVLine (trim row)) [])) eqn:E;
    cbn [negb orb]; [|intros []].
  destruct (nonEmpty pv); cbn [negb orb]; [|intros []].
  intros [<-|[]]. exact E.
Qed.

(** Every record that the parser returns has a non-empty name. *)
Lemma parseConsolidatedCSV_name_nonEmpty (text : jsstring) (r : PackageRecord) :
  In r (parseConsolidatedCSV text) -> name r <> [].
Proof.
  unfold parseConsolidatedCSV. intros H. apply in_flat_map in H.
  destruct H as (row & _ & H). apply parseRow_name_nonEmpty in H.
  intros E. rewrite E in H. discriminate.
Qed.

(** A feed whose header is not blank splits into its header and what
    follows it, when what follows does not end with white space. *)
Lemma lines_of_feed (header rest : jsstring) :
  ~ In LF header -> trim header <> [] ->
  trimEnd (LF :: rest) = LF :: rest ->
  skipn 1 (split LF (trim (header ++ LF :: rest))) = split LF rest.
Proof.
  intros Hlf Hh Hr.
  assert (Hs : trimStart header <> []).
  { intros E. apply Hh. unfold trim. now rewrite E. }
  unfold trim. rewrite trimStart_app by assumption.
  rewrite trimEnd_app by (rewrite Hr; discriminate).
  rewrite Hr, split_app_sep.
  - reflexivity.
  - intros H. apply Hlf. now apply trimStart_incl.
Qed.

(** C4. After any header row that is not blank, the single data row
    [pkg-a,<q>1.0.0,1.0.1<q>,vendorX] ([<q>] the double quote) parses to
    exactly one record, with name [pkg-a], versions [1.0.0] and [1.0.1] and
    source [vendorX].  In the scanner a quote toggles the mode, a comma
    inside quotes is kept as content, a comma outside quotes ends the
    field, and every field is trimmed. *)
Theorem quoted_row_parses :
  (forall header,
      ~ In LF header -> trim header <> [] ->
      parseConsolidatedCSV (feedOf header [quotedRow])
      = [mkRecord (lit "pkg-a") (lit "critical")
                  [lit "1.0.0"; lit "1.0.1"] [lit "vendorX"]])
  /\ (forall st,
        scanStep st QUOTE
        = mkScan (result st) (current st) (negb (inQuotes st)))
  /\ (forall st,
        inQuotes st = true ->
        scanStep st COMMA = mkScan (result st) (current st ++ [COMMA]) true)
  /\ (forall st,
        inQuotes st = false ->
        scanStep st COMMA = mkScan (result st ++ [trim (current st)]) [] false)
  /\ (forall line f, In f (parseCSVLine line) -> trim f = f).
Proof.
  split; [|split; [|split; [|split]]].
  - intros header Hlf Hh. unfold parseConsolidatedCSV, feedOf.
    change (flat_map (fun row => LF :: row) [quotedRow])
      with (LF :: (quotedRow ++ [])).
    rewrite lines_of_feed by (assumption || (vm_compute; reflexivity)).
    vm_compute. reflexivity.
  - reflexivity.
  - intros st H. unfold scanStep. simpl. now rewrite H.
  - intros st H. unfold scanStep. simpl. now rewrite H.
  - apply parseCSVLine_trimmed.
Qed.

Lemma quoted_row_parses_witness :
  parseConsolidatedCSV (feedOf feedHeader [quotedRow])
  = [mkRecord (lit "pkg-a") (lit "critical")
              [lit "1.0.0"; lit "1.0.1"] [lit "vendorX"]]
  /\ scanStep (mkScan [lit "pkg-a"] (lit "1.0.0") true) COMMA
     = mkScan [lit "pkg-a"] (lit "1.0.0,") true
  /\ scanStep (mkScan [] (lit " pkg-a ") false) COMMA
     = mkScan [lit "pkg-a"] [] false
  /\ trim (lit "vendorX") = lit "vendorX".
Proof.
  split; [|split; [|split]].
  - apply (proj1 quoted_row_parses feedHeader).
    + vm_compute. intros H.
      repeat (destruct H as [H|H]; [discriminate|]). exact H.
    + vm_compute. discriminate.
  - apply (proj1 (proj2 (proj2 quoted_row_parses))
             (mkScan [lit "pkg-a"] (lit "1.0.0") true)).
    reflexivity.
  - apply (proj1 (proj2 (proj2 (proj2 quoted_row_parses)))
             (mkScan [] (lit " pkg-a ") false)).
    reflexivity.
  - apply (proj2 (proj2 (proj2 (proj2 quoted_row_parses)))
             (lit "a, vendorX ") (lit "vendorX")).
    vm_compute. right. now left.
Defined.

Lemma trimStart_empty_iff (s : jsstring) :
  trimStart s = [] <-> Forall (fun c => isWhiteSpace c = true) s.
Proof.
  induction s as [|c r IH]; simpl.
  - split; [constructor | reflexivity].
  - destruct (isWhiteSpace c) eqn:E.
    + rewrite IH. split; [now constructor | now inversion 1].
    + split; [discriminate|]. inversion 1. congruence.
Qed.

Lemma trim_empty_iff (s : jsstring) :
  trim s = [] <-> Forall (fun c => isWhiteSpace c = true) s.
Proof.
  rewrite <- trimStart_empty_iff. unfold trim.
  destruct (trimStart_head s) as [E | (c & r & E & W)]; rewrite E.
  - split; reflexivity.
  - rewrite trimEnd_cons by assumption. split; discriminate.
Qed.

Lemma split_blank_iff (f : jsstring) :
  Forall (fun piece => trim piece = []) (split COMMA f)
  <-> Forall separatorOrBlank f.
Proof.
  induction f as [|c r IH]; simpl.
  - split; repeat constructor.
  - destruct (N.eqb_spec c COMMA) as [->|Hc].
    + split.
      * intros H. inversion H; subst. constructor; [now left | now apply IH].
      * intros H. inversion H; subst. constructor; [reflexivity | now apply IH].
    + destruct (split COMMA r) as [|piece pieces] eqn:E;
        [now destruct (split_nonempty COMMA r)|].
      split.
      * intros H. inversion H as [|? ? Hp Hps]; subst.
        apply trim_empty_iff in Hp. inversion Hp; subst.
        constructor; [now right|]. apply IH.
        constructor; [now apply trim_empty_iff | assumption].
      * intros H. inversion H as [|? ? Hsep Hr]; subst.
        apply IH in Hr. inversion Hr as [|? ? Hp Hps]; subst.
        constructor; [|assumption].
        apply trim_empty_iff. constructor.
        -- destruct Hsep as [Hsep|Hsep]; [contradiction | assumption].
        -- now apply trim_empty_iff.
Qed.

Lemma filter_nonEmpty_nil (pieces : list jsstring) :
  filter nonEmpty pieces = [] <-> Forall (fun p => p = []) pieces.
Proof.
  induction pieces as [|p pieces IH]; simpl.
  - split; constructor.
  - destruct p as [|c p]; simpl.
    + rewrite IH. split; [now constructor | now inversion 1].
    + split; [discriminate | inversion 1; discriminate].
Qed.

(** A versions field yields no version exactly when it holds nothing but
    commas and white space. *)
Lemma splitList_empty_iff (field : jsstring) :
  splitList field = [] <-> Forall separatorOrBlank field.
Proof.
  unfold splitList. rewrite filter_nonEmpty_nil, Forall_map.
  apply split_blank_iff.
Qed.

(** A record comes from a row whose second field is not empty, and its
    versions are the pieces of that field. *)
Lemma parseRow_versions (row : jsstring) (r : PackageRecord) :
  In r (parseRow row) ->
  exists field,
    nth_error (parseCSVLine (trim row)) 1 = Some field
    /\ field <> [] /\ affectedVersions r = splitList field.
Proof.
  unfold parseRow. cbv zeta.
  destruct (nonEmpty (trim row)); cbn [negb]; [|intros []].
  destruct (nth_error (parseCSVLine (trim row)) 1) as [pv|]; [|intros []].
  destruct (nonEmpty (nth 0 (parseCSVLine (trim row)) []));
    cbn [negb orb]; [|intros []].
  destruct (nonEmpty pv) eqn:E; cbn [negb orb]; [|intros []].
  intros [<-|[]]. exists pv. repeat split.
  intros ->. discriminate.
Qed.

(** C1, on the feed whose only data row is [pkg-b,<q>,<q>,vendorX]: the
    versions field is a quoted comma, which is not empty, so the row passes
    the guard; splitting it on commas, trimming and discarding the empty
    pieces leaves no version; the parser returns a record whose
    [affectedVersions] is empty. *)
Theorem parse_keeps_row_without_versions :
  nth_error (parseCSVLine commaVersionsRow) 1 = Some [COMMA]
  /\ splitList [COMMA] = []
  /\ parseConsolidatedCSV (feedOf feedHeader [commaVersionsRow])
     = [mkRecord (lit "pkg-b") (lit "critical") [] [lit "vendorX"]].
Proof. repeat split; vm_compute; reflexivity. Qed.

(** ** The merge *)

Lemma database_version (existing : json) (now : jsstring)
      (packages : list PackageRecord) :
  optField (database existing now packages) (lit "version")
  = Some (orElse (optField existing (lit "version")) defaultVersion).
Proof. reflexivity. Qed.

Lemma database_curated (existing : json) (now : jsstring)
      (packages : list PackageRecord) (key : jsstring) (seed : json) :
  In (key, seed) curatedDefaults ->
  optField (database existing now packages) key
  = Some (orElse (optField existing key) seed).
Proof.
  intros [E|[E|[E|[]]]]; inversion E; subst; reflexivity.
Qed.

Lemma orElse_truthy (v fallback : json) :
  truthy v = true -> orElse (Some v) fallback = v.
Proof. intros H. simpl. now rewrite H. Qed.

Lemma orElse_fallback (value : option json) (fallback : json) :
  value = None \/ (exists v, value = Some v /\ truthy v = false) ->
  orElse value fallback = fallback.
Proof.
  intros [->|(v & -> & H)]; simpl; [reflexivity|]. now rewrite H.
Qed.

(** C3, as the script has it.  The version of the merged database is the
    one of the previous database when that is there and truthy (any
    non-empty string is); when the previous database is absent, or has no
    version, or has a falsy one such as the empty string, it is the seed
    [2.1.0]. *)
Theorem version_kept_or_seeded :
  forall existing now packages,
    (forall v,
        optField existing (lit "version") = Some v -> truthy v = true ->
        optField (database existing now packages) (lit "version") = Some v)
    /\ (forall s,
          optField existing (lit "version") = Some (JString s) -> s <> [] ->
          optField (database existing now packages) (lit "version")
          = Some (JString s))
    /\ (optField existing (lit "version") = None
        \/ (exists v, optField existing (lit "version") = Some v
                      /\ truthy v = false) ->
        optField (database existing now packages) (lit "version")
        = Some (JString (lit "2.1.0")))
    /\ (existing = JNull ->
        optField (database existing now packages) (lit "version")
        = Some (JString (lit "2.1.0"))).
Proof.
  intros existing now packages. rewrite database_version.
  split; [|split; [|split]].
  - intros v E T. rewrite E. now rewrite orElse_truthy.
  - intros s E N. rewrite E. rewrite orElse_truthy; [reflexivity|].
    destruct s; [contradiction | reflexivity].
  - intros H. now rewrite orElse_fallback.
  - intros ->. reflexivity.
Qed.

Lemma version_kept_or_seeded_witness :
  optField (database databaseWithoutAcknowledgements instant1 [])
           (lit "version") = Some (JString (lit "2.0.0"))
  /\ optField (database databaseWithEmptyVersion instant1 [])
              (lit "version") = Some (JString (lit "2.1.0"))
  /\ optField (database JNull instant1 [])
              (lit "version") = Some (JString (lit "2.1.0")).
Proof.
  split; [|split].
  - apply (proj1 (proj2 (version_kept_or_seeded
                           databaseWithoutAcknowledgements instant1 []))
             (lit "2.0.0")).
    + reflexivity.
    + discriminate.
  - apply (proj1 (proj2 (proj2 (version_kept_or_seeded
                                  databaseWithEmptyVersion instant1 [])))).
    right. exists (JString []). split; reflexivity.
  - apply (proj2 (proj2 (proj2 (version_kept_or_seeded
                                  JNull instant1 [])))).
    reflexivity.
Defined.

(** C3 as stated fails: the previous database is present, its version is
    the empty string, and the merged database has the seed instead. *)
Lemma version_not_always_kept :
  databaseWithEmptyVersion <> JNull
  /\ optField databaseWithEmptyVersion (lit "version") = Some (JString [])
  /\ optField (database databaseWithEmptyVersion instant1 [])
              (lit "version")
     <> optField databaseWithEmptyVersion (lit "version")
  /\ optField (database databaseWithEmptyVersion instant1 [])
              (lit "version") = Some defaultVersion.
Proof.
  split; [discriminate|]. split; [reflexivity|].
  split; [|reflexivity]. vm_compute. discriminate.
Qed.

(** C2, as the script has it.  Each of [attackInfo], [indicators] and
    [acknowledgements] of the merged database is the value of the previous
    database when that is there and truthy (every object and every array
    is, an empty one too), whatever the records are; when the previous
    database is absent, or lacks the field, or has a falsy value there, the
    field is its seed: the campaign name and alias for [attackInfo], the
    empty object for [indicators], the empty array for
    [acknowledgements]. *)
Theorem curated_fields_kept_or_seeded :
  forall existing now packages key seed,
    In (key, seed) curatedDefaults ->
    (forall v,
        optField existing key = Some v -> truthy v = true ->
        optField (database existing now packages) key = Some v)
    /\ (forall v,
          optField existing key = Some v ->
          (exists props, v = JObject props) \/ (exists items, v = JArray items) ->
          optField (database existing now packages) key = Some v)
    /\ (optField existing key = None
        \/ (exists v, optField existing key = Some v /\ truthy v = false) ->
        optField (database existing now packages) key = Some seed)
    /\ (existing = JNull ->
        optField (database existing now packages) key = Some seed)
    /\ optField defaultAttackInfo (lit "name")
       = Some (JString (lit "Shai-Hulud 2.0"))
    /\ optField defaultAttackInfo (lit "alias")
       = Some (JString (lit "The Second Coming"))
    /\ defaultIndicators = JObject []
    /\ defaultAcknowledgements = JArray [].
Proof.
  intros existing now packages key seed Hin.
  rewrite (database_curated existing now packages key seed Hin).
  split; [|split; [|split; [|split]]].
  - intros v E T. rewrite E. now rewrite orElse_truthy.
  - intros v E [(props & ->)|(items & ->)]; rewrite E; reflexivity.
  - intros H. now rewrite orElse_fallback.
  - intros ->. reflexivity.
  - repeat split; reflexivity.
Qed.

Lemma curated_fields_kept_or_seeded_witness :
  optField (database databaseWithoutAcknowledgements instant1
                     (parseConsolidatedCSV quotedFeed))
           (lit "attackInfo")
  = optField databaseWithoutAcknowledgements (lit "attackInfo")
  /\ optField (database databaseWithoutAcknowledgements instant1
                        (parseConsolidatedCSV quotedFeed))
              (lit "acknowledgements")
     = Some (JArray [])
  /\ optField (database JNull instant1 (parseConsolidatedCSV quotedFeed))
              (lit "indicators")
     = Some (JObject []).
Proof.
  split; [|split].
  - eapply (proj1 (proj2 (curated_fields_kept_or_seeded
                            databaseWithoutAcknowledgements instant1
                            (parseConsolidatedCSV quotedFeed)
                            (lit "attackInfo") defaultAttackInfo
                            (or_introl eq_refl)))).
    + reflexivity.
    + left. eexists. reflexivity.
  - apply (proj1 (proj2 (proj2 (curated_fields_kept_or_seeded
                                  databaseWithoutAcknowledgements instant1
                                  (parseConsolidatedCSV quotedFeed)
                                  (lit "acknowledgements")
                                  defaultAcknowledgements
                                  (or_intror (or_intror (or_introl eq_refl))))))).
    left. reflexivity.
  - apply (proj1 (proj2 (proj2 (proj2 (curated_fields_kept_or_seeded
                                  JNull instant1
                                  (parseConsolidatedCSV quotedFeed)
                                  (lit "indicators") defaultIndicators
                                  (or_intror (or_introl eq_refl))))))).
    reflexivity.
Defined.

(** C2 as stated fails.  A previous database that is present and has no
    [acknowledgements] gets the empty array there, not the (missing)
    previous value; one whose [indicators] is [null] gets the empty object
    there, not [null]. *)
Lemma curated_fields_not_always_kept :
  (databaseWithoutAcknowledgements <> JNull
   /\ optField databaseWithoutAcknowledgements (lit "acknowledgements") = None
   /\ optField (database databaseWithoutAcknowledgements instant1
                         (parseConsolidatedCSV quotedFeed))
               (lit "acknowledgements")
      = Some (JArray [])
   /\ optField (database databaseWithoutAcknowledgements instant1
                         (parseConsolidatedCSV quotedFeed))
               (lit "acknowledgements")
      <> optField databaseWithoutAcknowledgements (lit "acknowledgements"))
  /\ (databaseWithNullIndicators <> JNull
      /\ optField databaseWithNullIndicators (lit "indicators") = Some JNull
      /\ optField (database databaseWithNullIndicators instant1
                            (parseConsolidatedCSV quotedFeed))
                  (lit "indicators")
         = Some (JObject [])
      /\ optField (database databaseWithNullIndicators instant1
                            (parseConsolidatedCSV quotedFeed))
                  (lit "indicators")
         <> optField databaseWithNullIndicators (lit "indicators")).
Proof.
  split.
  - split; [discriminate|]. split; [reflexivity|]. split; [reflexivity|].
    vm_compute. discriminate.
  - split; [discriminate|]. split; [reflexivity|]. split; [reflexivity|].
    vm_compute. discriminate.
Qed.

(** ** First occurrences and numbers of occurrences *)

Lemma firstOccurrences_snoc (l : list jsstring) (x : jsstring) :
  firstOccurrences (l ++ [x]) = noteFirst (firstOccurrences l) x.
Proof. unfold firstOccurrences. now rewrite fold_left_app. Qed.

Lemma firstOccurrences_In (l : list jsstring) (s : jsstring) :
  In s (firstOccurrences l) <-> In s l.
Proof.
  revert s. induction l as [|x l IH] using rev_ind; intros s; [simpl; tauto|].
  rewrite firstOccurrences_snoc, in_app_iff. unfold noteFirst.
  destruct (existsb (eqb x) (firstOccurrences l)) eqn:E.
  - apply existsb_eqb_In in E. rewrite IH in E. rewrite IH. simpl.
    split; [tauto|]. intros [H|[<-|[]]]; assumption.
  - rewrite in_app_iff, IH. tauto.
Qed.

Lemma firstOccurrences_NoDup (l : list jsstring) : NoDup (firstOccurrences l).
Proof.
  induction l as [|x l IH] using rev_ind; [constructor|].
  rewrite firstOccurrences_snoc. unfold noteFirst.
  destruct (existsb (eqb x) (firstOccurrences l)) eqn:E; [assumption|].
  apply existsb_eqb_notIn in E.
  apply NoDup_rev in IH.
  rewrite <- (rev_involutive (firstOccurrences l ++ [x])), rev_app_distr.
  apply NoDup_rev. simpl. constructor; [|assumption].
  now rewrite <- in_rev.
Qed.

Lemma occurrences_snoc (s x : jsstring) (l : list jsstring) :
  occurrences s (l ++ [x])
  = (occurrences s l + if eqb s x then 1 else 0)%N.
Proof.
  unfold occurrences. rewrite filter_app, length_app. simpl.
  destruct (eqb s x); simpl; lia.
Qed.

Lemma occurrences_notIn (s : jsstring) (l : list jsstring) :
  ~ In s l -> occurrences s l = 0%N.
Proof.
  intros H. unfold occurrences.
  induction l as [|x l IH]; simpl; [reflexivity|].
  destruct (eqb s x) eqn:E.
  - apply eqb_eq in E. subst. exfalso. apply H. now left.
  - apply IH. intros K. apply H. now right.
Qed.

Lemma occurrences_In (s : jsstring) (l : list jsstring) :
  In s l -> (0 < occurrences s l)%N.
Proof.
  unfold occurrences. induction l as [|x l IH]; simpl; [tauto|].
  intros [->|H].
  - rewrite eqb_refl. simpl. lia.
  - destruct (eqb s x); simpl; [lia | now apply IH].
Qed.

(** ** The object of counts *)

Lemma sourceCounts_flat (packages : list PackageRecord) :
  sourceCounts packages = fold_left countSource (observedSources packages) [].
Proof.
  unfold sourceCounts, observedSources. generalize (@nil (jsstring * jsvalue)).
  induction packages as [|pkg packages IH]; intros o; simpl; [reflexivity|].
  now rewrite fold_left_app, IH.
Qed.

Lemma assoc_tabulate (f : jsstring -> jsvalue) (keys : list jsstring)
      (x : jsstring) :
  assoc x (map (fun s => (s, f s)) keys)
  = if existsb (eqb x) keys then Some (f x) else None.
Proof.
  induction keys as [|s keys IH]; simpl; [reflexivity|].
  destruct (eqb x s) eqn:E; simpl; [|exact IH].
  apply eqb_eq in E. now subst.
Qed.

Lemma putOwn_fresh (o : jsobject) (x : jsstring) (v : jsvalue) :
  ~ In x (map fst o) -> putOwn o x v = o ++ [(x, v)].
Proof.
  induction o as [|[k w] o IH]; simpl; intros H; [reflexivity|].
  destruct (eqb x k) eqn:E.
  - apply eqb_eq in E. subst. tauto.
  - rewrite IH by tauto. reflexivity.
Qed.

Lemma putOwn_tabulate (f : jsstring -> jsvalue) (keys : list jsstring)
      (x : jsstring) (v : jsvalue) :
  NoDup keys -> In x keys ->
  putOwn (map (fun s => (s, f s)) keys) x v
  = map (fun s => (s, if eqb s x then v else f s)) keys.
Proof.
  induction keys as [|s keys IH]; simpl; intros Hnd Hin; [tauto|].
  inversion Hnd as [|? ? Hs Hnd']; subst.
  destruct (eqb x s) eqn:E.
  - apply eqb_eq in E. subst s. rewrite eqb_refl. f_equal.
    apply map_ext_in. intros t Ht.
    destruct (eqb t x) eqn:E'; [|reflexivity].
    apply eqb_eq in E'. subst. contradiction.
  - rewrite eqb_sym, E. f_equal. apply IH; [assumption|].
    destruct Hin as [->|Hin]; [|assumption].
    rewrite eqb_refl in E. discriminate.
Qed.

Lemma bump_number (n : N) : bump (VNumber n) = VNumber (n + 1).
Proof. simpl. destruct (N.eqb_spec n 0); [now subst | reflexivity]. Qed.

Lemma plainKey_inv (key : jsstring) :
  plainKey key = true ->
  isArrayIndex key = false /\ eqb key protoKey = false
  /\ assoc key objectPrototype = None.
Proof.
  unfold plainKey. intros H.
  apply andb_prop in H. destruct H as [H C].
  apply andb_prop in H. destruct H as [A B].
  apply negb_true_iff in A. apply negb_true_iff in B.
  destruct (assoc key objectPrototype); [discriminate|]. tauto.
Qed.

(** When every source is a plain key, the object of counts lists the
    distinct sources in order of first occurrence, each with the number of
    its occurrences. *)
Lemma countSource_fold_plain (l : list jsstring) :
  Forall (fun s => plainKey s = true) l ->
  fold_left countSource l []
  = map (fun s => (s, VNumber (occurrences s l))) (firstOccurrences l).
Proof.
  induction l as [|x l IH] using rev_ind; intros H; [reflexivity|].
  apply Forall_app in H. destruct H as [Hl Hx].
  inversion Hx as [|? ? Px _]; subst.
  destruct (plainKey_inv x Px) as (_ & Hproto & Hinh).
  rewrite fold_left_app, (IH Hl), firstOccurrences_snoc. simpl.
  unfold countSource, setProp, getProp, noteFirst.
  rewrite Hproto, Hinh, assoc_tabulate.
  destruct (existsb (eqb x) (firstOccurrences l)) eqn:E.
  - apply existsb_eqb_In in E.
    rewrite bump_number, putOwn_tabulate
      by (assumption || apply firstOccurrences_NoDup).
    apply map_ext. intros s. rewrite occurrences_snoc.
    destruct (eqb s x) eqn:Es.
    + apply eqb_eq in Es. now subst.
    + now rewrite N.add_0_r.
  - apply existsb_eqb_notIn in E.
    rewrite putOwn_fresh
      by (rewrite map_map; simpl; now rewrite map_id).
    rewrite map_app. simpl. f_equal.
    + apply map_ext_in. intros s Hs. rewrite occurrences_snoc.
      destruct (eqb s x) eqn:Es; [|now rewrite N.add_0_r].
      apply eqb_eq in Es. subst. contradiction.
    + rewrite occurrences_snoc, eqb_refl, occurrences_notIn; [reflexivity|].
      now rewrite <- firstOccurrences_In.
Qed.

Lemma filter_all (A : Type) (f : A -> bool) (l : list A) :
  Forall (fun a => f a = true) l -> filter f l = l.
Proof.
  induction 1 as [|a l Ha _ IH]; simpl; [reflexivity|].
  now rewrite Ha, IH.
Qed.

Lemma filter_none (A : Type) (f : A -> bool) (l : list A) :
  Forall (fun a => f a = false) l -> filter f l = [].
Proof.
  induction 1 as [|a l Ha _ IH]; simpl; [reflexivity|].
  now rewrite Ha, IH.
Qed.

(** Without array indices among its keys, an object lists its entries in
    creation order. *)
Lemma Object_entries_plain (o : jsobject) :
  Forall (fun p => isArrayIndex (fst p) = false) o -> Object_entries o = o.
Proof.
  intros H. unfold Object_entries.
  rewrite filter_none by assumption.
  rewrite filter_all; [reflexivity|].
  eapply Forall_impl; [|exact H]. intros p Hp. simpl in Hp. now rewrite Hp.
Qed.

(** ** What the counting loop stores *)

Lemma assoc_In (V : Type) (k : jsstring) (l : list (jsstring * V)) (v : V) :
  assoc k l = Some v -> In (k, v) l.
Proof.
  induction l as [|[k' w] l IH]; simpl; [discriminate|].
  destruct (eqb k k') eqn:E.
  - apply eqb_eq in E. intros [= ->]. left. now subst.
  - intros H. right. now apply IH.
Qed.

Lemma objectPrototype_functions (k : jsstring) (v : jsvalue) :
  assoc k objectPrototype = Some v -> exists f, v = VFunction f.
Proof.
  intros H. apply assoc_In in H. unfold objectPrototype in H.
  repeat (destruct H as [H|H]; [inversion H; eexists; reflexivity|]).
  destruct H.
Qed.

Lemma bump_stored (o : jsobject) (x : jsstring) :
  Forall (fun p => storedValue (snd p)) o ->
  eqb x protoKey = false ->
  storedValue (bump (getProp o x)).
Proof.
  intros Ho Hx. unfold getProp. rewrite Hx.
  destruct (assoc x o) as [v|] eqn:E.
  - apply assoc_In in E. rewrite Forall_forall in Ho.
    pose proof (Ho _ E) as S. simpl in S.
    destruct S as [(n & ->)|(rest & ->)].
    + rewrite bump_number. left. now eexists.
    + right. exists (rest ++ lit "1"). simpl. reflexivity.
  - destruct (assoc x objectPrototype) as [v|] eqn:P.
    + destruct (objectPrototype_functions x v P) as (f & ->).
      right. eexists. simpl. reflexivity.
    + left. now eexists.
Qed.

Lemma putOwn_stored (o : jsobject) (x : jsstring) (v : jsvalue) :
  Forall (fun p => storedValue (snd p)) o -> storedValue v ->
  Forall (fun p => storedValue (snd p)) (putOwn o x v).
Proof.
  intros Ho Hv. induction Ho as [|[k w] o Hw Ho IH]; simpl.
  - constructor; [exact Hv | constructor].
  - destruct (eqb x k); constructor; assumption.
Qed.

(** The values of the object of counts are numbers, or strings that start
    with [function ]: no such string reads as a number. *)
Lemma sourceCounts_stored (packages : list PackageRecord) :
  Forall (fun p => storedValue (snd p)) (sourceCounts packages).
Proof.
  rewrite sourceCounts_flat.
  assert (G : forall l o,
             Forall (fun p => storedValue (snd p)) o ->
             Forall (fun p => storedValue (snd p)) (fold_left countSource l o)).
  { induction l as [|x l IH]; intros o Ho; simpl; [assumption|].
    apply IH. unfold countSource, setProp.
    destruct (eqb x protoKey) eqn:E; [assumption|].
    apply putOwn_stored; [assumption | now apply bump_stored]. }
  apply G. constructor.
Qed.

(** ** Sorting *)

Section SortFacts.
Context {A : Type}.

Lemma insertSorted_perm (cmp : A -> A -> Z) (x : A) (l : list A) :
  Permutation (insertSorted cmp x l) (x :: l).
Proof.
  induction l as [|y l IH]; simpl; [reflexivity|].
  destruct (cmp x y <=? 0)%Z; [reflexivity|].
  rewrite IH. apply perm_swap.
Qed.

Lemma Array_sort_perm (cmp : A -> A -> Z) (l : list A) :
  Permutation (Array_sort cmp l) l.
Proof.
  induction l as [|x l IH]; simpl; [reflexivity|].
  rewrite insertSorted_perm. now constructor.
Qed.

Lemma insertSorted_ext (cmp cmp' : A -> A -> Z) (x : A) (l : list A) :
  (forall b, In b l -> cmp x b = cmp' x b) ->
  insertSorted cmp x l = insertSorted cmp' x l.
Proof.
  induction l as [|y l IH]; simpl; intros H; [reflexivity|].
  rewrite (H y) by now left.
  rewrite IH by (intros b Hb; apply H; now right). reflexivity.
Qed.

(** The sort sees the comparison function only on the elements of the
    array. *)
Lemma Array_sort_ext (cmp cmp' : A -> A -> Z) (l : list A) :
  (forall a b, In a l -> In b l -> cmp a b = cmp' a b) ->
  Array_sort cmp l = Array_sort cmp' l.
Proof.
  induction l as [|x l IH]; simpl; intros H; [reflexivity|].
  rewrite IH by (intros a b Ha Hb; apply H; now right).
  apply insertSorted_ext. intros b Hb. apply H; [now left|].
  right. eapply Permutation_in; [apply Array_sort_perm | exact Hb].
Qed.

(** Sorting by a key, largest first. *)
Variable key : A -> Z.

Lemma insertSorted_descending (x : A) (l : list A) :
  StronglySorted (notBelow key) l -> StronglySorted (notBelow key) (insertSorted (descendingBy key) x l).
Proof.
  induction 1 as [|y l Hl IH Hy]; simpl; [repeat constructor|].
  unfold descendingBy at 1. destruct (Z.leb_spec (key y - key x) 0) as [L|L].
  - constructor; [now constructor|].
    constructor; [unfold notBelow; lia|].
    eapply Forall_impl; [|exact Hy]. unfold notBelow. intros; lia.
  - constructor; [exact IH|].
    eapply Permutation_Forall; [symmetry; apply insertSorted_perm|].
    constructor; [unfold notBelow; lia | exact Hy].
Qed.

Lemma Array_sort_descending (l : list A) :
  StronglySorted (notBelow key) (Array_sort (descendingBy key) l).
Proof.
  induction l as [|x l IH]; simpl; [constructor|].
  now apply insertSorted_descending.
Qed.

Lemma insertSorted_stable (c : Z) (x : A) (l : list A) :
  filter (fun e => (key e =? c)%Z) (insertSorted (descendingBy key) x l)
  = filter (fun e => (key e =? c)%Z) (x :: l).
Proof.
  induction l as [|y l IH]; [reflexivity|].
  simpl insertSorted. unfold descendingBy at 1.
  destruct (Z.leb_spec (key y - key x) 0) as [L|L]; [reflexivity|].
  simpl in *. rewrite IH.
  destruct (Z.eqb_spec (key x) c), (Z.eqb_spec (key y) c);
    (reflexivity || lia).
Qed.

(** Elements with equal keys keep their relative order. *)
Lemma Array_sort_stable (c : Z) (l : list A) :
  filter (fun e => (key e =? c)%Z) (Array_sort (descendingBy key) l)
  = filter (fun e => (key e =? c)%Z) l.
Proof.
  induction l as [|x l IH]; [reflexivity|].
  simpl Array_sort. rewrite insertSorted_stable. simpl. now rewrite IH.
Qed.

Lemma filter_key_nil (l : list A) :
  (forall c, filter (fun e => (key e =? c)%Z) l = []) -> l = [].
Proof.
  destruct l as [|a l]; [reflexivity|]. intros H.
  specialize (H (key a)). simpl in H. rewrite Z.eqb_refl in H. discriminate.
Qed.

(** A list sorted by descending key is determined by the sequences of its
    elements of each key: the result of a stable sort does not depend on
    the sorting algorithm. *)
Lemma stable_sort_unique (l1 : list A) :
  forall l2,
    StronglySorted (notBelow key) l1 -> StronglySorted (notBelow key) l2 ->
    (forall c, filter (fun e => (key e =? c)%Z) l1
               = filter (fun e => (key e =? c)%Z) l2) ->
    l1 = l2.
Proof.
  induction l1 as [|a l1 IH]; intros l2 S1 S2 H.
  - symmetry. apply filter_key_nil. intros c. now rewrite <- H.
  - destruct l2 as [|b l2].
    { apply filter_key_nil. intros c. now rewrite H. }
    inversion S1 as [|? ? S1' F1]; subst.
    inversion S2 as [|? ? S2' F2]; subst.
    rewrite Forall_forall in F1, F2. unfold notBelow in F1, F2.
    assert (Ha : In a (b :: l2)).
    { pose proof (H (key a)) as Hc. simpl in Hc. rewrite Z.eqb_refl in Hc.
      assert (I : In a (a :: filter (fun e => (key e =? key a)%Z) l1))
        by now left.
      rewrite Hc in I.
      destruct (key b =? key a)%Z; [|apply filter_In in I; right; tauto].
      destruct I as [I|I]; [now left | apply filter_In in I; right; tauto]. }
    assert (Hb : In b (a :: l1)).
    { pose proof (H (key b)) as Hc. simpl in Hc. rewrite Z.eqb_refl in Hc.
      assert (I : In b (b :: filter (fun e => (key e =? key b)%Z) l2))
        by now left.
      rewrite <- Hc in I.
      destruct (key a =? key b)%Z; [|apply filter_In in I; right; tauto].
      destruct I as [I|I]; [now left | apply filter_In in I; right; tauto]. }
    assert (E : key a = key b).
    { destruct Ha as [->|Ha]; [reflexivity|].
      destruct Hb as [->|Hb]; [reflexivity|].
      pose proof (F1 _ Hb). pose proof (F2 _ Ha). lia. }
    pose proof (H (key a)) as Hc. simpl in Hc.
    rewrite Z.eqb_refl, <- E, Z.eqb_refl in Hc.
    injection Hc as -> Hc. f_equal. apply IH; [assumption..|].
    intros c. specialize (H c). simpl in H.
    destruct (key b =? c)%Z; [now injection H | exact H].
Qed.

(** Whatever returns a list sorted by descending key that keeps the order
    of elements of equal key returns what [Array_sort] returns. *)
Lemma Array_sort_determined (l sorted : list A) :
  StronglySorted (notBelow key) sorted ->
  (forall c, filter (fun e => (key e =? c)%Z) sorted
             = filter (fun e => (key e =? c)%Z) l) ->
  sorted = Array_sort (descendingBy key) l.
Proof.
  intros S H. apply stable_sort_unique;
    [assumption | apply Array_sort_descending |].
  intros c. now rewrite H, Array_sort_stable.
Qed.

End SortFacts.

(** ** The source report *)

Lemma StronglySorted_weaken (A : Type) (R R' : A -> A -> Prop) (l : list A) :
  (forall a b, R a b -> R' a b) -> StronglySorted R l -> StronglySorted R' l.
Proof.
  intros H. induction 1 as [|a l Hl IH Ha]; constructor; [assumption|].
  eapply Forall_impl; [|exact Ha]. intros b. apply H.
Qed.

Lemma filter_tabulate (A B : Type) (g : A -> B) (p : B -> bool) (l : list A) :
  filter p (map g l) = map g (filter (fun a => p (g a)) l).
Proof.
  induction l as [|a l IH]; simpl; [reflexivity|].
  rewrite IH. now destruct (p (g a)).
Qed.

Lemma occurrences_app (s : jsstring) (a b : list jsstring) :
  occurrences s (a ++ b) = (occurrences s a + occurrences s b)%N.
Proof. unfold occurrences. rewrite filter_app, length_app. lia. Qed.

Lemma occurrences_NoDup (s : jsstring) (l : list jsstring) :
  NoDup l -> occurrences s l = if existsb (eqb s) l then 1%N else 0%N.
Proof.
  induction 1 as [|x l Hx Hl IH]; [reflexivity|].
  change (x :: l) with ([x] ++ l). rewrite occurrences_app, IH.
  unfold occurrences. simpl.
  destruct (eqb s x) eqn:E; simpl; [|reflexivity].
  apply eqb_eq in E. subst.
  apply existsb_eqb_notIn in Hx. now rewrite Hx.
Qed.

Lemma occurrences_records (s : jsstring) (packages : list PackageRecord) :
  (forall pkg, In pkg packages -> NoDup (sources pkg)) ->
  occurrences s (observedSources packages) = recordsAttributing s packages.
Proof.
  unfold observedSources, recordsAttributing.
  induction packages as [|pkg packages IH]; intros H; [reflexivity|].
  cbn [flat_map filter].
  rewrite occurrences_app, IH by (intros q Hq; apply H; now right).
  rewrite occurrences_NoDup by (apply H; now left).
  destruct (existsb (eqb s) (sources pkg)); cbn [Datatypes.length]; lia.
Qed.

(** With plain keys only, the report is the stable sort by descending
    count of the distinct sources in order of first occurrence, each with
    the number of its occurrences. *)
Lemma sourceReport_plain (packages : list PackageRecord) :
  Forall (fun s => plainKey s = true) (observedSources packages) ->
  sourceReport packages
  = Array_sort (descendingBy countKey)
      (map (fun s => (s, VNumber (occurrences s (observedSources packages))))
           (firstOccurrences (observedSources packages))).
Proof.
  intros H. unfold sourceReport.
  rewrite sourceCounts_flat, countSource_fold_plain by assumption.
  rewrite Object_entries_plain.
  - apply Array_sort_ext. intros a b Ha Hb.
    apply in_map_iff in Ha. destruct Ha as (sa & <- & _).
    apply in_map_iff in Hb. destruct Hb as (sb & <- & _).
    reflexivity.
  - apply Forall_forall. intros e He.
    apply in_map_iff in He. destruct He as (t & <- & Ht). simpl.
    rewrite firstOccurrences_In in Ht.
    rewrite Forall_forall in H. now destruct (plainKey_inv t (H t Ht)).
Qed.

(** C8, as the script has it.  When no source is an array index or the
    name of a property of [Object.prototype], the report lists every
    observed source once, with the number of its occurrences in the
    sources of the records (a record that names a source twice counts
    twice), by descending count, sources of equal count in order of first
    occurrence.  When no record names a source twice, the number of
    occurrences is the number of records that attribute the source. *)
Theorem report_counts_occurrences :
  forall packages,
    Forall (fun s => plainKey s = true) (observedSources packages) ->
    Permutation (map fst (sourceReport packages))
                (firstOccurrences (observedSources packages))
    /\ (forall s v,
          In (s, v) (sourceReport packages) ->
          v = VNumber (occurrences s (observedSources packages)))
    /\ StronglySorted (fun a b => (countOf b <= countOf a)%N)
                      (sourceReport packages)
    /\ (forall c,
          map fst (filter (fun e => (countOf e =? c)%N) (sourceReport packages))
          = filter (fun s => (occurrences s (observedSources packages) =? c)%N)
                   (firstOccurrences (observedSources packages)))
    /\ ((forall pkg, In pkg packages -> NoDup (sources pkg)) ->
        forall s,
          occurrences s (observedSources packages)
          = recordsAttributing s packages).
Proof.
  intros packages H. rewrite (sourceReport_plain packages H).
  set (flat := observedSources packages).
  set (entries := map (fun s => (s, VNumber (occurrences s flat)))
                      (firstOccurrences flat)).
  assert (K : map fst entries = firstOccurrences flat).
  { unfold entries. rewrite map_map. simpl. apply map_id. }
  split; [|split; [|split; [|split]]].
  - rewrite <- K. apply Permutation_map. apply Array_sort_perm.
  - intros s v Hin.
    eapply Permutation_in in Hin; [|apply Array_sort_perm].
    apply in_map_iff in Hin. destruct Hin as (t & E & _).
    now inversion E.
  - eapply StronglySorted_weaken; [|apply Array_sort_descending].
    unfold notBelow, countKey. intros a b. lia.
  - intros c.
    rewrite (filter_ext _ (fun e => (countKey e =? Z.of_N c)%Z)).
    + rewrite Array_sort_stable. unfold entries.
      rewrite filter_tabulate, map_map. simpl. rewrite map_id.
      apply filter_ext. intros t. unfold countKey, countOf. simpl.
      destruct (N.eqb_spec (occurrences t flat) c),
               (Z.eqb_spec (Z.of_N (occurrences t flat)) (Z.of_N c));
        (reflexivity || lia).
    + intros e. unfold countKey.
      destruct (N.eqb_spec (countOf e) c),
               (Z.eqb_spec (Z.of_N (countOf e)) (Z.of_N c));
        (reflexivity || lia).
  - intros Hnd s. now apply occurrences_records.
Qed.

Lemma report_counts_occurrences_witness :
  sourceReport (parseConsolidatedCSV vendorFeed)
  = [ (lit "datadog", VNumber 2); (lit "wiz", VNumber 1);
      (lit "socket", VNumber 1) ]
  /\ (forall s v,
        In (s, v) (sourceReport (parseConsolidatedCSV vendorFeed)) ->
        v = VNumber (occurrences
                       s (observedSources (parseConsolidatedCSV vendorFeed))))
  /\ map fst (filter (fun e => (countOf e =? 1)%N)
                     (sourceReport (parseConsolidatedCSV vendorFeed)))
     = filter (fun s =>
                 (occurrences
                    s (observedSources (parseConsolidatedCSV vendorFeed))
                  =? 1)%N)
              (firstOccurrences
                 (observedSources (parseConsolidatedCSV vendorFeed)))
  /\ occurrences (lit "datadog")
                 (observedSources (parseConsolidatedCSV vendorFeed))
     = recordsAttributing (lit "datadog") (parseConsolidatedCSV vendorFeed).
Proof.
  assert (P : Forall (fun s => plainKey s = true)
                     (observedSources (parseConsolidatedCSV vendorFeed))).
  { apply Forall_forall, forallb_forall. vm_compute. reflexivity. }
  destruct (report_counts_occurrences (parseConsolidatedCSV vendorFeed) P)
    as (_ & B & _ & D & E).
  split; [vm_compute; reflexivity|].
  split; [exact B|]. split; [exact (D 1%N)|].
  apply E. intros pkg Hin. vm_compute in Hin.
  repeat (destruct Hin as [<-|Hin];
          [vm_compute; repeat constructor; simpl; intuition discriminate|]).
  destruct Hin.
Defined.

(** C8 as stated fails: the single record of this feed names [vendorX]
    twice; the report counts 2 for [vendorX], and one record attributes
    it. *)
Lemma report_counts_not_records :
  sourceReport (parseConsolidatedCSV repeatedSourceFeed)
  = [ (lit "vendorX", VNumber 2) ]
  /\ recordsAttributing (lit "vendorX")
                        (parseConsolidatedCSV repeatedSourceFeed) = 1%N
  /\ ~ (forall s v,
          In (s, v) (sourceReport (parseConsolidatedCSV repeatedSourceFeed)) ->
          v = VNumber (recordsAttributing
                         s (parseConsolidatedCSV repeatedSourceFeed))).
Proof.
  split; [vm_compute; reflexivity|]. split; [vm_compute; reflexivity|].
  intros H. specialize (H (lit "vendorX") (VNumber 2)).
  assert (K : VNumber 2
              = VNumber (recordsAttributing
                           (lit "vendorX")
                           (parseConsolidatedCSV repeatedSourceFeed))).
  { apply H. vm_compute. now left. }
  vm_compute in K. discriminate.
Qed.

(** A source whose name is an array index comes first in the report among
    the sources of its count, wherever it occurred first. *)
Lemma report_lists_array_index_first :
  observedSources (parseConsolidatedCSV numberedSourceFeed)
  = [ lit "b"; lit "7" ]
  /\ sourceReport (parseConsolidatedCSV numberedSourceFeed)
     = [ (lit "7", VNumber 1); (lit "b", VNumber 1) ].
Proof. split; vm_compute; reflexivity. Qed.

(** ** The sorted sources of the merged database *)

Lemma putOwn_keys (o : jsobject) (x : jsstring) (v : jsvalue) :
  map fst (putOwn o x v) = noteFirst (map fst o) x.
Proof.
  unfold noteFirst. induction o as [|[k w] o IH]; simpl; [reflexivity|].
  destruct (eqb x k); simpl; [reflexivity|].
  rewrite IH. now destruct (existsb (eqb x) (map fst o)).
Qed.

Lemma countSource_key (o : jsobject) (x : jsstring) :
  map fst (countSource o x)
  = if notProto x then noteFirst (map fst o) x else map fst o.
Proof.
  unfold countSource, setProp, notProto.
  destruct (eqb x protoKey); simpl; [reflexivity | apply putOwn_keys].
Qed.

Lemma countSource_keys (l : list jsstring) :
  forall o,
    map fst (fold_left countSource l o)
    = fold_left noteFirst (filter notProto l) (map fst o).
Proof.
  induction l as [|x l IH]; intros o; simpl; [reflexivity|].
  rewrite IH, countSource_key. now destruct (notProto x).
Qed.

(** The keys of the object of counts: the distinct sources other than
    [__proto__], in order of first occurrence. *)
Lemma sourceCounts_keys (packages : list PackageRecord) :
  map fst (sourceCounts packages)
  = firstOccurrences (filter notProto (observedSources packages)).
Proof. rewrite sourceCounts_flat. apply countSource_keys. Qed.

Lemma filter_split_perm (A : Type) (p : A -> bool) (l : list A) :
  Permutation (filter p l ++ filter (fun a => negb (p a)) l) l.
Proof.
  induction l as [|a l IH]; simpl; [reflexivity|].
  destruct (p a); simpl.
  - now constructor.
  - rewrite <- Permutation_middle. now constructor.
Qed.

Lemma Object_entries_perm (o : jsobject) : Permutation (Object_entries o) o.
Proof.
  unfold Object_entries. rewrite Array_sort_perm. apply filter_split_perm.
Qed.

Lemma sortedSources_perm (packages : list PackageRecord) :
  Permutation (sortedSources packages)
              (firstOccurrences (filter notProto (observedSources packages))).
Proof.
  unfold sortedSources, Object_keys.
  rewrite Array_sort_perm, Object_entries_perm. now rewrite sourceCounts_keys.
Qed.

Lemma defaultCompare_le (a b : jsstring) :
  (defaultCompare a b <=? 0)%Z = true <-> notAbove a b.
Proof.
  unfold defaultCompare, notAbove.
  destruct (compare a b); cbv; split; intros H;
    (reflexivity || discriminate || (exfalso; now apply H)).
Qed.

Lemma insertSorted_HdRel (y x : jsstring) (l : list jsstring) :
  notAbove y x -> HdRel notAbove y l ->
  HdRel notAbove y (insertSorted defaultCompare x l).
Proof.
  intros Hx Hl. destruct l as [|z l]; simpl; [now constructor|].
  destruct (defaultCompare x z <=? 0)%Z; constructor; [assumption|].
  now inversion Hl.
Qed.

Lemma insertSorted_ascending (x : jsstring) (l : list jsstring) :
  Sorted notAbove l -> Sorted notAbove (insertSorted defaultCompare x l).
Proof.
  induction 1 as [|y l Hl IH Hy]; simpl; [repeat constructor|].
  destruct (defaultCompare x y <=? 0)%Z eqn:E.
  - apply defaultCompare_le in E. repeat constructor; assumption.
  - constructor; [exact IH|]. apply insertSorted_HdRel; [|exact Hy].
    unfold notAbove. rewrite compare_antisym.
    unfold defaultCompare in E.
    destruct (compare x y); cbv in E |- *; (discriminate E || discriminate).
Qed.

Lemma Array_sort_ascending (l : list jsstring) :
  Sorted notAbove (Array_sort defaultCompare l).
Proof.
  induction l as [|x l IH]; simpl; [constructor|].
  now apply insertSorted_ascending.
Qed.

Lemma Sorted_strict (l : list jsstring) :
  Sorted notAbove l -> NoDup l -> Sorted strictlyBelow l.
Proof.
  induction 1 as [|a l Hl IH Ha]; intros Hnd; constructor.
  - apply IH. now inversion Hnd.
  - destruct Ha as [|b l Hab]; constructor.
    unfold notAbove in Hab. unfold strictlyBelow.
    destruct (compare a b) eqn:E; [|reflexivity|congruence].
    apply compare_eq_iff in E. subst.
    inversion Hnd as [|? ? Hin _]. exfalso. apply Hin. now left.
Qed.

(** The sources written to [dataSource.sources] are the observed sources
    other than [__proto__], in strictly ascending order of code units, so
    each once. *)
Lemma sortedSources_spec (packages : list PackageRecord) :
  (forall s,
      In s (sortedSources packages)
      <-> In s (observedSources packages) /\ s <> protoKey)
  /\ Sorted strictlyBelow (sortedSources packages).
Proof.
  split.
  - intros s. split.
    + intros H. eapply Permutation_in in H; [|apply sortedSources_perm].
      rewrite firstOccurrences_In, filter_In in H.
      destruct H as [H P]. split; [assumption|].
      unfold notProto in P. apply negb_true_iff in P. now apply eqb_neq.
    + intros [H P].
      eapply Permutation_in; [symmetry; apply sortedSources_perm|].
      rewrite firstOccurrences_In, filter_In. split; [assumption|].
      unfold notProto. apply negb_true_iff. now apply eqb_neq.
  - apply Sorted_strict; [apply Array_sort_ascending|].
    eapply Permutation_NoDup; [symmetry; apply sortedSources_perm|].
    apply firstOccurrences_NoDup.
Qed.

(** C7, on the feed whose only record has the source [__proto__]: the
    assignment to [sourceCounts] under that key reaches the setter that
    [Object.prototype] provides, which ignores a string, so the object gets
    no key; the sources of the merged database are empty, while one source
    was observed. *)
Theorem proto_source_is_dropped :
  observedSources (parseConsolidatedCSV protoSourceFeed) = [lit "__proto__"]
  /\ sourceCounts (parseConsolidatedCSV protoSourceFeed) = []
  /\ sortedSources (parseConsolidatedCSV protoSourceFeed) = []
  /\ forall existing now,
      exists dataSource,
        optField (database existing now
                                (parseConsolidatedCSV protoSourceFeed))
                 (lit "dataSource") = Some dataSource
        /\ optField dataSource (lit "sources") = Some (JArray []).
Proof.
  split; [vm_compute; reflexivity|]. split; [vm_compute; reflexivity|].
  split; [vm_compute; reflexivity|].
  intros existing now. eexists. split; reflexivity.
Qed.

(** ** The transport and the run of the script *)

Lemma fetchUrl_frame (fuel : nat) :
  forall url w,
    disk (snd (fetchUrl fuel url w)) = disk w
    /\ writes (snd (fetchUrl fuel url w)) = writes w
    /\ network (snd (fetchUrl fuel url w)) = network w
    /\ clock (snd (fetchUrl fuel url w)) = clock w.
Proof.
  induction fuel as [|fuel IH]; intros url w; simpl; [tauto|].
  destruct (network w (requests w) url) as [e|e|res]; simpl; try tauto.
  destruct ((statusCode res =? 301)%N || (statusCode res =? 302)%N).
  - destruct (IH (location res) (logRequest w url)) as (A & B & C & D).
    simpl in *. tauto.
  - destruct (negb (statusCode res =? 200)%N); simpl; [tauto|].
    destruct (ending res); simpl; tauto.
Qed.

(** Once the promise has settled, more fuel changes nothing. *)
Lemma fetchUrl_fuel_mono (fuel : nat) :
  forall url w p w' extra,
    fetchUrl fuel url w = (Some p, w') ->
    fetchUrl (fuel + extra) url w = (Some p, w').
Proof.
  induction fuel as [|fuel IH]; intros url w p w' extra; simpl;
    [discriminate|].
  destruct (network w (requests w) url) as [e|e|res]; try tauto.
  destruct ((statusCode res =? 301)%N || (statusCode res =? 302)%N);
    [apply IH | tauto].
Qed.

Lemma fetchUrl_redirect (fuel : nat) (url : option jsstring) (w : World)
      (res : Response) :
  network w (requests w) url = Responds res ->
  statusCode res = 301%N \/ statusCode res = 302%N ->
  fetchUrl (S fuel) url w = fetchUrl fuel (location res) (logRequest w url).
Proof.
  intros Hn Hs. simpl. rewrite Hn.
  destruct Hs as [-> | ->]; reflexivity.
Qed.

Lemma fetchUrl_bad_status (fuel : nat) (url : option jsstring) (w : World)
      (res : Response) :
  network w (requests w) url = Responds res ->
  statusCode res <> 200%N -> statusCode res <> 301%N ->
  statusCode res <> 302%N ->
  fetchUrl (S fuel) url w
  = (Some (Rejected (Error (httpErrorMessage res))), logRequest w url).
Proof.
  intros Hn H200 H301 H302. simpl. rewrite Hn.
  destruct (N.eqb_spec (statusCode res) 301); [contradiction|].
  destruct (N.eqb_spec (statusCode res) 302); [contradiction|].
  destruct (N.eqb_spec (statusCode res) 200); [contradiction|].
  reflexivity.
Qed.

Section SyncProperties.
Variable JSON_parse : jsstring -> option json.
Variable JSON_stringify : json -> jsstring.

Lemma updateDatabase_rejected (fuel : nat) (w w' : World) (e : JsError) :
  fetchUrl fuel (Some CONSOLIDATED_IOC_URL) w = (Some (Rejected e), w') ->
  updateDatabase JSON_parse JSON_stringify fuel w = (Aborted e, w')
  /\ disk w' = disk w /\ writes w' = writes w.
Proof.
  intros H. unfold updateDatabase. rewrite H. split; [reflexivity|].
  pose proof (fetchUrl_frame fuel (Some CONSOLIDATED_IOC_URL) w) as F.
  rewrite H in F. simpl in F. tauto.
Qed.

(** C5. A response whose status is none of 200, 301 and 302 rejects the
    fetch with the error [HTTP <status code>: <status text>]; a rejected
    fetch ends the run of the script there: nothing is written and the
    persisted file is as it was. *)
Theorem bad_status_aborts_without_write :
  (forall fuel url w res,
      network w (requests w) url = Responds res ->
      statusCode res <> 200%N -> statusCode res <> 301%N ->
      statusCode res <> 302%N ->
      fetchUrl (S fuel) url w
      = (Some (Rejected (Error (lit "HTTP " ++ decimal (statusCode res)
                                 ++ lit ": " ++ statusMessage res))),
         logRequest w url))
  /\ (forall fuel w w' e,
        fetchUrl fuel (Some CONSOLIDATED_IOC_URL) w = (Some (Rejected e), w') ->
        updateDatabase JSON_parse JSON_stringify fuel w = (Aborted e, w')
        /\ disk w' = disk w /\ writes w' = writes w)
  /\ (forall fuel w res,
        network w (requests w) (Some CONSOLIDATED_IOC_URL) = Responds res ->
        statusCode res <> 200%N -> statusCode res <> 301%N ->
        statusCode res <> 302%N ->
        exists w',
          updateDatabase JSON_parse JSON_stringify (S fuel) w
          = (Aborted (Error (lit "HTTP " ++ decimal (statusCode res)
                             ++ lit ": " ++ statusMessage res)), w')
          /\ disk w' = disk w /\ writes w' = writes w).
Proof.
  split; [|split].
  - intros. now apply fetchUrl_bad_status.
  - intros. now apply updateDatabase_rejected.
  - intros fuel w res Hn H200 H301 H302.
    exists (logRequest w (Some CONSOLIDATED_IOC_URL)).
    apply updateDatabase_rejected. now apply fetchUrl_bad_status.
Qed.


(** C9. The records that a run parses are a function of the feed text
    alone: two runs that fetch the same text, from whatever worlds they
    start (other files, other clocks, other request histories, the second
    possibly after the first has written), parse equal record sequences,
    namely the parse of that text. *)
Theorem parse_depends_on_text_only :
  forall fuel1 fuel2 w1 w2 w1' w2' text,
    fetchUrl fuel1 (Some CONSOLIDATED_IOC_URL) w1 = (Some (Resolved text), w1') ->
    fetchUrl fuel2 (Some CONSOLIDATED_IOC_URL) w2 = (Some (Resolved text), w2') ->
    exists run1 run2,
      fst (updateDatabase JSON_parse JSON_stringify fuel1 w1) = Wrote run1
      /\ fst (updateDatabase JSON_parse JSON_stringify fuel2 w2) = Wrote run2
      /\ parsed run1 = parsed run2
      /\ parsed run1 = parseConsolidatedCSV text.
Proof.
  intros fuel1 fuel2 w1 w2 w1' w2' text H1 H2.
  unfold updateDatabase. rewrite H1, H2. simpl.
  eexists _, _. repeat split.
Qed.

End SyncProperties.

(** C6. A response with status 301 or 302 makes the fetch issue a request
    to the [Location] header, and the promise settles as the promise of
    that nested fetch does.  In particular a 302 whose target answers 200
    resolves to the body of the target, after two requests in all: the
    first one and one re-fetch. *)
Theorem redirect_is_followed :
  (forall fuel url w res,
      network w (requests w) url = Responds res ->
      statusCode res = 301%N \/ statusCode res = 302%N ->
      fetchUrl (S fuel) url w
      = fetchUrl fuel (location res) (logRequest w url))
  /\ (forall fuel url w res loc target,
        network w (requests w) url = Responds res ->
        statusCode res = 302%N ->
        location res = Some loc ->
        network w (requests w ++ [url]) (Some loc) = Responds target ->
        statusCode target = 200%N ->
        ending target = EndOfBody ->
        exists w',
          fetchUrl (S (S fuel)) url w
          = (Some (Resolved (List.concat (chunks target))), w')
          /\ requests w' = requests w ++ [url; Some loc]).
Proof.
  split.
  - intros. now apply fetchUrl_redirect.
  - intros fuel url w res loc target Hn Hs Hl Ht H200 He.
    rewrite (fetchUrl_redirect (S fuel) url w res Hn (or_intror Hs)), Hl.
    simpl. rewrite Ht, H200, He. simpl.
    eexists. split; [reflexivity|].
    simpl. now rewrite <- app_assoc.
Qed.

Lemma redirect_is_followed_witness :
  fetchUrl 3 (Some CONSOLIDATED_IOC_URL) redirectWorld
  = fetchUrl 2 (Some mirrorUrl)
             (logRequest redirectWorld (Some CONSOLIDATED_IOC_URL))
  /\ exists w',
      fetchUrl 2 (Some CONSOLIDATED_IOC_URL) redirectWorld
      = (Some (Resolved quotedFeed), w')
      /\ requests w' = [Some CONSOLIDATED_IOC_URL; Some mirrorUrl].
Proof.
  split.
  - apply (proj1 redirect_is_followed 2%nat (Some CONSOLIDATED_IOC_URL)
             redirectWorld (movedTo mirrorUrl)).
    + vm_compute. reflexivity.
    + right. reflexivity.
  - apply (proj2 redirect_is_followed 0%nat (Some CONSOLIDATED_IOC_URL)
             redirectWorld (movedTo mirrorUrl) mirrorUrl
             (okBody [feedHeader; [LF]; quotedRow]));
      vm_compute; reflexivity.
Defined.

Lemma bad_status_aborts_without_write_witness :
  fetchUrl 1 (Some CONSOLIDATED_IOC_URL) notFoundWorld
  = (Some (Rejected (Error (lit "HTTP 404: Not Found"))),
     logRequest notFoundWorld (Some CONSOLIDATED_IOC_URL))
  /\ (updateDatabase parseNothing printBraces 1 notFoundWorld
      = (Aborted (Error (lit "HTTP 404: Not Found")),
         logRequest notFoundWorld (Some CONSOLIDATED_IOC_URL))
      /\ disk (logRequest notFoundWorld (Some CONSOLIDATED_IOC_URL))
         = disk notFoundWorld
      /\ writes (logRequest notFoundWorld (Some CONSOLIDATED_IOC_URL))
         = writes notFoundWorld)
  /\ exists w',
      updateDatabase parseNothing printBraces 1 notFoundWorld
      = (Aborted (Error (lit "HTTP 404: Not Found")), w')
      /\ disk w' = disk notFoundWorld /\ writes w' = writes notFoundWorld.
Proof.
  split; [|split].
  - apply (proj1 (bad_status_aborts_without_write parseNothing printBraces)
             0%nat (Some CONSOLIDATED_IOC_URL) notFoundWorld notFound);
      vm_compute; (reflexivity || discriminate).
  - apply (proj1 (proj2 (bad_status_aborts_without_write
                           parseNothing printBraces))
             1%nat notFoundWorld
             (logRequest notFoundWorld (Some CONSOLIDATED_IOC_URL))
             (Error (lit "HTTP 404: Not Found"))).
    vm_compute. reflexivity.
  - apply (proj2 (proj2 (bad_status_aborts_without_write
                           parseNothing printBraces))
             0%nat notFoundWorld notFound);
      vm_compute; (reflexivity || discriminate).
Defined.

Lemma parse_depends_on_text_only_witness :
  exists run1 run2,
    fst (updateDatabase parseNothing printBraces 1 firstRunWorld) = Wrote run1
    /\ fst (updateDatabase parseNothing printBraces 5 laterRunWorld)
       = Wrote run2
    /\ parsed run1 = parsed run2
    /\ parsed run1 = parseConsolidatedCSV quotedFeed.
Proof.
  apply (parse_depends_on_text_only parseNothing printBraces 1 5
           firstRunWorld laterRunWorld
           (logRequest firstRunWorld (Some CONSOLIDATED_IOC_URL))
           (logRequest laterRunWorld (Some CONSOLIDATED_IOC_URL)) quotedFeed);
    vm_compute; reflexivity.
Defined.

(** * Further properties *)

(** ** The scanner and [split] *)

Lemma parseCSVLine_quoteFree (line f : jsstring) :
  In f (parseCSVLine line) -> ~ In QUOTE f.
Proof.
  intros H.
  assert (A : Forall quoteFree (result scanInit)) by constructor.
  assert (B : quoteFree (current scanInit)) by (intros []).
  destruct (scan_quoteFree line scanInit A B) as [Hr Hc].
  unfold parseCSVLine in H. apply in_app_or in H.
  destruct H as [H|[<-|[]]].
  - rewrite Forall_forall in Hr. now apply Hr.
  - intros Q. apply Hc. now apply trim_incl.
Qed.

Lemma prependFirst_nil (pieces : list jsstring) :
  pieces <> [] -> prependFirst [] pieces = pieces.
Proof. destruct pieces; [congruence | reflexivity]. Qed.

Lemma scan_outside_quotes (line : jsstring) :
  forall st,
    ~ In QUOTE line -> inQuotes st = false ->
    result (scan st line) ++ [trim (current (scan st line))]
    = result st ++ map trim (prependFirst (current st) (split COMMA line)).
Proof.
  induction line as [|c r IH]; intros st Hq Hst; simpl.
  - now rewrite app_nil_r.
  - assert (Hc : c <> QUOTE) by (intros ->; apply Hq; now left).
    assert (Hr : ~ In QUOTE r) by (intros H; apply Hq; now right).
    unfold scanStep. destruct (N.eqb_spec c QUOTE) as [|_]; [contradiction|].
    rewrite Hst. simpl negb. rewrite andb_true_r.
    destruct (N.eqb_spec c COMMA) as [->|Hcomma].
    + rewrite IH by (simpl; auto). simpl.
      rewrite prependFirst_nil by apply split_nonempty.
      now rewrite app_nil_r, <- app_assoc.
    + rewrite IH by (simpl; auto). simpl.
      destruct (split COMMA r) as [|p ps] eqn:E;
        [now destruct (split_nonempty COMMA r)|].
      simpl. now rewrite <- app_assoc.
Qed.

(** X1. On a line without double quotes the scanner does what splitting
    on commas and trimming every piece does. *)
Theorem parseCSVLine_without_quotes :
  forall line,
    ~ In QUOTE line -> parseCSVLine line = map trim (split COMMA line).
Proof.
  intros line H. unfold parseCSVLine.
  rewrite (scan_outside_quotes line scanInit H eq_refl). simpl.
  now rewrite prependFirst_nil by apply split_nonempty.
Qed.

Lemma parseCSVLine_without_quotes_witness :
  parseCSVLine (lit " pkg-a , 1.0.0 ,, vendorX ")
  = map trim (split COMMA (lit " pkg-a , 1.0.0 ,, vendorX ")).
Proof.
  apply parseCSVLine_without_quotes.
  vm_compute. intros H. repeat (destruct H as [H|H]; [discriminate|]).
  exact H.
Defined.

Lemma scanStep_result_app (pre : list jsstring) (st : ScanState) (x : N) :
  scanStep (mkScan (pre ++ result st) (current st) (inQuotes st)) x
  = mkScan (pre ++ result (scanStep st x)) (current (scanStep st x))
           (inQuotes (scanStep st x)).
Proof.
  unfold scanStep. simpl.
  destruct (x =? QUOTE)%N; [reflexivity|].
  destruct ((x =? COMMA)%N && negb (inQuotes st)); simpl; [|reflexivity].
  now rewrite <- app_assoc.
Qed.

Lemma scan_result_app (line : jsstring) :
  forall pre st,
    scan (mkScan (pre ++ result st) (current st) (inQuotes st)) line
    = mkScan (pre ++ result (scan st line)) (current (scan st line))
             (inQuotes (scan st line)).
Proof.
  induction line as [|x line IH]; intros pre st; simpl; [reflexivity|].
  rewrite scanStep_result_app. apply IH.
Qed.

(** X2. A comma outside quotes cuts the line: when the part before it ends
    outside quotes, the fields of the line are the fields of that part
    followed by the fields of the rest. *)
Theorem parseCSVLine_comma_outside_quotes :
  forall before rest,
    inQuotes (scan scanInit before) = false ->
    parseCSVLine (before ++ COMMA :: rest)
    = parseCSVLine before ++ parseCSVLine rest.
Proof.
  intros before rest H. unfold parseCSVLine at 1.
  rewrite scan_app.
  change (scan (scan scanInit before) (COMMA :: rest))
    with (scan (scanStep (scan scanInit before) COMMA) rest).
  assert (E : scanStep (scan scanInit before) COMMA
              = mkScan (parseCSVLine before ++ result scanInit)
                       (current scanInit) (inQuotes scanInit)).
  { unfold scanStep. simpl. rewrite H. simpl.
    now rewrite app_nil_r. }
  rewrite E.
  rewrite (scan_result_app rest (parseCSVLine before) scanInit). simpl.
  now rewrite <- app_assoc.
Qed.

Lemma parseCSVLine_comma_outside_quotes_witness :
  parseCSVLine (quotedRow ++ COMMA :: lit "extra, field")
  = parseCSVLine quotedRow ++ parseCSVLine (lit "extra, field").
Proof.
  apply parseCSVLine_comma_outside_quotes. vm_compute. reflexivity.
Defined.

(** ** Records *)

Lemma split_piece_no_sep (sep : N) (s p : jsstring) :
  In p (split sep s) -> ~ In sep p.
Proof.
  revert p. induction s as [|c r IH]; intros p; simpl.
  - intros [<-|[]]. intros [].
  - destruct (N.eqb_spec c sep) as [->|Hc].
    + intros [<-|H]; [intros [] | now apply IH].
    + destruct (split sep r) as [|q qs] eqn:E;
        [now destruct (split_nonempty sep r)|].
      intros [<-|H].
      * intros [K|K]; [congruence|].
        exact (IH q (or_introl eq_refl) K).
      * apply IH. now right.
Qed.

Lemma split_piece_incl (sep : N) (s p : jsstring) (x : N) :
  In p (split sep s) -> In x p -> In x s.
Proof.
  revert p. induction s as [|c r IH]; intros p; simpl.
  - intros [<-|[]]. tauto.
  - destruct (N.eqb_spec c sep) as [->|Hc].
    + intros [<-|H]; [intros [] |]. intros K. right. now apply (IH p).
    + destruct (split sep r) as [|q qs] eqn:E;
        [now destruct (split_nonempty sep r)|].
      intros [<-|H].
      * intros [K|K]; [now left|]. right. apply (IH q); [now left | exact K].
      * intros K. right. apply (IH p); [now right | exact K].
Qed.

Lemma splitList_items (field x : jsstring) :
  In x (splitList field) ->
  x <> [] /\ trim x = x /\ ~ In COMMA x /\ (forall c, In c x -> In c field).
Proof.
  unfold splitList. intros H. apply filter_In in H. destruct H as [H N].
  apply in_map_iff in H. destruct H as (p & <- & Hp).
  split; [intros E; rewrite E in N; discriminate|].
  split; [apply trim_idem|]. split.
  - intros K. apply trim_incl in K.
    exact (split_piece_no_sep COMMA field p Hp K).
  - intros c K. apply trim_incl in K. now apply (split_piece_incl COMMA field p).
Qed.

Lemma splitList_clean (field : jsstring) :
  ~ In QUOTE field -> Forall cleanItem (splitList field).
Proof.
  intros Hq. apply Forall_forall. intros x Hx.
  destruct (splitList_items field x Hx) as (A & B & C & D).
  repeat split; try assumption. intros K. apply Hq. now apply D.
Qed.

(** What a record that a row yields is made of. *)
Lemma parseRow_inv (row : jsstring) (r : PackageRecord) :
  In r (parseRow row) ->
  parseRow row = [r]
  /\ name r = nth 0 (parseCSVLine (trim row)) []
  /\ name r <> []
  /\ severity r = lit "critical"
  /\ (exists field,
         nth_error (parseCSVLine (trim row)) 1 = Some field
         /\ field <> [] /\ affectedVersions r = splitList field)
  /\ (sources r = []
      \/ exists field,
           nth_error (parseCSVLine (trim row)) 2 = Some field
           /\ sources r = splitList field).
Proof.
  unfold parseRow. cbv zeta.
  destruct (nonEmpty (trim row)); cbn [negb]; [|intros []].
  destruct (nth_error (parseCSVLine (trim row)) 1) as [pv|]; [|intros []].
  destruct (nonEmpty (nth 0 (parseCSVLine (trim row)) [])) eqn:E;
    cbn [negb orb]; [|intros []].
  destruct (nonEmpty pv) eqn:Ev; cbn [negb orb]; [|intros []].
  intros [<-|[]]. cbn [name severity affectedVersions sources].
  split; [reflexivity|]. split; [reflexivity|].
  split; [intros K; rewrite K in E; discriminate|].
  split; [reflexivity|]. split.
  - exists pv. repeat split. intros ->. discriminate.
  - destruct (nth_error (parseCSVLine (trim row)) 2) as [srcs|];
      [|now left].
    destruct (nonEmpty srcs); [|now left].
    right. exists srcs. now split.
Qed.

(** X3. Every version and every source of every record that the parser
    returns is not empty, has no white space around it, and holds neither
    a comma nor a double quote. *)
Theorem record_items_clean :
  forall text r,
    In r (parseConsolidatedCSV text) ->
    Forall cleanItem (affectedVersions r) /\ Forall cleanItem (sources r).
Proof.
  intros text r H. unfold parseConsolidatedCSV in H.
  apply in_flat_map in H. destruct H as (row & _ & H).
  destruct (parseRow_inv row r H)
    as (_ & _ & _ & _ & (pv & Hpv & _ & ->) & Hs).
  split.
  - apply splitList_clean. apply (parseCSVLine_quoteFree (trim row)).
    eapply nth_error_In. exact Hpv.
  - destruct Hs as [->|(srcs & Hsrcs & ->)]; [constructor|].
    apply splitList_clean. apply (parseCSVLine_quoteFree (trim row)).
    eapply nth_error_In. exact Hsrcs.
Qed.

Lemma record_items_clean_witness :
  Forall cleanItem [lit "1.0.0"; lit "1.0.1"] /\ Forall cleanItem [lit "vendorX"].
Proof.
  apply (record_items_clean quotedFeed
           (mkRecord (lit "pkg-a") (lit "critical")
                     [lit "1.0.0"; lit "1.0.1"] [lit "vendorX"])).
  vm_compute. now left.
Defined.

(** X4. Every record that the parser returns has a name that is not
    empty, has no white space around it and holds no double quote, and has
    the severity [critical]. *)
Theorem record_name_and_severity :
  forall text r,
    In r (parseConsolidatedCSV text) ->
    name r <> [] /\ trim (name r) = name r /\ ~ In QUOTE (name r)
    /\ severity r = lit "critical".
Proof.
  intros text r H. unfold parseConsolidatedCSV in H.
  apply in_flat_map in H. destruct H as (row & _ & H).
  destruct (parseRow_inv row r H) as (_ & Hn & Hne & Hs & _).
  assert (Hin : In (name r) (parseCSVLine (trim row))).
  { rewrite Hn. apply nth_In.
    unfold parseCSVLine. rewrite length_app. simpl. lia. }
  repeat split; try assumption.
  - now apply (parseCSVLine_trimmed (trim row)).
  - now apply (parseCSVLine_quoteFree (trim row)).
Qed.

Lemma record_name_and_severity_witness :
  lit "pkg-a" <> [] /\ trim (lit "pkg-a") = lit "pkg-a"
  /\ ~ In QUOTE (lit "pkg-a") /\ lit "critical" = lit "critical".
Proof.
  apply (record_name_and_severity quotedFeed
           (mkRecord (lit "pkg-a") (lit "critical")
                     [lit "1.0.0"; lit "1.0.1"] [lit "vendorX"])).
  vm_compute. now left.
Defined.

(** X5. A record has no version exactly when the versions field of its
    row, which is never empty, holds nothing but commas and white
    space. *)
Theorem record_without_versions_iff :
  forall row r,
    In r (parseRow row) ->
    exists field,
      nth_error (parseCSVLine (trim row)) 1 = Some field
      /\ field <> []
      /\ (affectedVersions r = [] <-> Forall separatorOrBlank field).
Proof.
  intros row r H.
  destruct (parseRow_inv row r H) as (_ & _ & _ & _ & (pv & Hpv & Hne & E) & _).
  exists pv. repeat split; try assumption.
  - intros K. apply splitList_empty_iff. now rewrite <- E.
  - intros K. rewrite E. now apply splitList_empty_iff.
Qed.

Lemma record_without_versions_iff_witness :
  exists field,
    nth_error (parseCSVLine (trim commaVersionsRow)) 1 = Some field
    /\ field <> []
    /\ (@nil jsstring = [] <-> Forall separatorOrBlank field).
Proof.
  apply (record_without_versions_iff commaVersionsRow
           (mkRecord (lit "pkg-b") (lit "critical") [] [lit "vendorX"])).
  vm_compute. now left.
Defined.

(** ** Rows of a feed *)

Lemma trimStart_blank_app (a s : jsstring) :
  blank a -> trimStart (a ++ s) = trimStart s.
Proof.
  induction 1 as [|c a Hc _ IH]; simpl; [reflexivity|]. now rewrite Hc.
Qed.

Lemma blank_rev (s : jsstring) : blank s -> blank (rev s).
Proof. unfold blank. intros H. now apply Forall_rev. Qed.

Lemma trimEnd_app_blank (s b : jsstring) :
  blank b -> trimEnd (s ++ b) = trimEnd s.
Proof.
  intros H. unfold trimEnd.
  now rewrite rev_app_distr, trimStart_blank_app by now apply blank_rev.
Qed.

Lemma trimEnd_blank (s : jsstring) : blank s -> trimEnd s = [].
Proof.
  intros H. unfold trimEnd.
  assert (E : trimStart (rev s) = [])
    by (apply trimStart_empty_iff; now apply blank_rev).
  now rewrite E.
Qed.

Lemma trimEnd_cons_cases (c : N) (r : jsstring) :
  trimEnd (c :: r) = c :: trimEnd r
  \/ (blank (c :: r) /\ trimEnd (c :: r) = []).
Proof.
  unfold trimEnd. cbn [rev].
  destruct (trimStart (rev r)) as [|x t] eqn:E.
  - assert (Hrev : blank (rev r)) by now apply trimStart_empty_iff.
    assert (Hr : blank r).
    { apply blank_rev in Hrev. now rewrite rev_involutive in Hrev. }
    rewrite trimStart_blank_app by assumption. simpl.
    destruct (isWhiteSpace c) eqn:W.
    + right. split; [now constructor | reflexivity].
    + now left.
  - left. rewrite trimStart_app by (rewrite E; discriminate).
    rewrite E, rev_app_distr. reflexivity.
Qed.

Lemma trim_padded (a row b : jsstring) :
  blank a -> blank b -> trim (a ++ row ++ b) = trim row.
Proof.
  intros Ha Hb. unfold trim. rewrite trimStart_blank_app by assumption.
  destruct (trimStart row) as [|c t] eqn:E.
  - assert (Hr : blank row) by now apply trimStart_empty_iff.
    assert (K : trimStart (row ++ b) = []).
    { apply trimStart_empty_iff. apply Forall_app. now split. }
    now rewrite K.
  - rewrite trimStart_app by (rewrite E; discriminate).
    rewrite E. now apply trimEnd_app_blank.
Qed.

(** A row is read through its trimmed form only. *)
Lemma parseRow_trim (a b : jsstring) :
  trim a = trim b -> parseRow a = parseRow b.
Proof. intros E. unfold parseRow. now rewrite E. Qed.

Lemma parseRow_blank (row : jsstring) : blank row -> parseRow row = [].
Proof.
  intros H. unfold parseRow. cbv zeta.
  apply trim_empty_iff in H. now rewrite H.
Qed.

Lemma parseRow_snoc_blank (pre : jsstring) (c : N) :
  isWhiteSpace c = true -> parseRow (pre ++ [c]) = parseRow pre.
Proof.
  intros W. apply parseRow_trim.
  rewrite <- (app_nil_l (pre ++ [c])).
  rewrite trim_padded; [reflexivity | constructor | now repeat constructor].
Qed.

Lemma split_single (sep : N) (s : jsstring) :
  ~ In sep s -> split sep s = [s].
Proof.
  induction s as [|c r IH]; simpl; intros H; [reflexivity|].
  destruct (N.eqb_spec c sep) as [->|_]; [tauto|].
  rewrite IH by tauto. reflexivity.
Qed.

Lemma cons_app_snoc (pre : jsstring) (c : N) (y : jsstring) :
  pre ++ c :: y = (pre ++ [c]) ++ y.
Proof. now rewrite <- app_assoc. Qed.

Lemma notIn_snoc (pre : jsstring) (c x : N) :
  ~ In x pre -> c <> x -> ~ In x (pre ++ [c]).
Proof.
  intros H Hc K. apply in_app_or in K. destruct K as [K|[K|[]]]; tauto.
Qed.

(** White space after the start of a line yields no further record. *)
Lemma rows_of_blank_tail (y : jsstring) :
  forall pre,
    blank y -> ~ In LF pre ->
    flat_map parseRow (split LF (pre ++ y)) = parseRow pre.
Proof.
  induction y as [|c r IH]; intros pre Hy Hpre.
  - rewrite app_nil_r, split_single by assumption. simpl.
    now rewrite app_nil_r.
  - inversion Hy as [|? ? Hc Hr]; subst.
    destruct (N.eq_dec c LF) as [->|Hn].
    + rewrite split_app_sep by assumption. simpl.
      assert (K : flat_map parseRow (split LF r) = parseRow [])
        by (apply (IH [] Hr); intros []).
      rewrite K, (parseRow_blank []) by constructor. now rewrite app_nil_r.
    + rewrite (cons_app_snoc pre c r).
      rewrite IH by (assumption || now apply notIn_snoc).
      now apply parseRow_snoc_blank.
Qed.

(** Trimming the end of a text does not change the records of its
    lines. *)
Lemma rows_of_trimEnd (x : jsstring) :
  forall pre,
    ~ In LF pre ->
    flat_map parseRow (split LF (pre ++ trimEnd x))
    = flat_map parseRow (split LF (pre ++ x)).
Proof.
  induction x as [|c r IH]; intros pre Hpre; [reflexivity|].
  destruct (trimEnd_cons_cases c r) as [E|[Hb E]]; rewrite E.
  - destruct (N.eq_dec c LF) as [->|Hn].
    + rewrite !split_app_sep by assumption. simpl. f_equal.
      apply (IH []). intros [].
    + rewrite (cons_app_snoc pre c (trimEnd r)), (cons_app_snoc pre c r).
      apply IH. now apply notIn_snoc.
  - rewrite (rows_of_blank_tail (c :: r) pre) by assumption.
    rewrite app_nil_r, split_single by assumption. simpl.
    now rewrite app_nil_r.
Qed.

(** After a header that is not blank, the records of a feed are those of
    the lines that follow the header. *)
Lemma rows_after_header (header rest : jsstring) :
  ~ In LF header -> trim header <> [] ->
  parseConsolidatedCSV (header ++ LF :: rest)
  = flat_map parseRow (split LF rest).
Proof.
  intros Hlf Hh. unfold parseConsolidatedCSV.
  assert (Hs : trimStart header <> []).
  { intros E. apply Hh. unfold trim. now rewrite E. }
  assert (Hlf' : ~ In LF (trimStart header)).
  { intros K. apply Hlf. now apply trimStart_incl. }
  unfold trim. rewrite trimStart_app by assumption.
  destruct (trimEnd_cons_cases LF rest) as [E|[Hb E]].
  - rewrite trimEnd_app by (rewrite E; discriminate).
    rewrite E, split_app_sep by assumption. simpl skipn.
    apply (rows_of_trimEnd rest []). intros [].
  - rewrite trimEnd_app_blank by assumption.
    rewrite split_single.
    + simpl. inversion Hb; subst.
      assert (K : flat_map parseRow (split LF rest) = parseRow [])
        by (apply (rows_of_blank_tail rest []); [assumption | intros []]).
      rewrite K. symmetry. apply parseRow_blank. constructor.
    + intros K. apply Hlf'. unfold trimEnd in K.
      apply in_rev in K. apply trimStart_incl in K. now apply in_rev.
Qed.

Lemma split_rows (row : jsstring) (rows : list jsstring) :
  Forall (fun r => ~ In LF r) (row :: rows) ->
  split LF (row ++ flat_map (fun r => LF :: r) rows) = row :: rows.
Proof.
  revert row. induction rows as [|r rows IH]; intros row H.
  - simpl. rewrite app_nil_r. apply split_single. now inversion H.
  - inversion H as [|? ? Hrow Hrest]; subst. simpl.
    rewrite split_app_sep by assumption. f_equal. now apply IH.
Qed.

Lemma feed_rows (header : jsstring) (rows : list jsstring) :
  ~ In LF header -> trim header <> [] ->
  Forall (fun r => ~ In LF r) rows ->
  parseConsolidatedCSV (feedOf header rows) = flat_map parseRow rows.
Proof.
  intros Hlf Hh Hrows. unfold feedOf. destruct rows as [|row rows].
  - simpl. rewrite app_nil_r. unfold parseConsolidatedCSV.
    rewrite split_single; [reflexivity|].
    intros K. apply Hlf. now apply trim_incl.
  - simpl. rewrite rows_after_header by assumption.
    now rewrite split_rows.
Qed.

Lemma parseRow_length (row : jsstring) : (Datatypes.length (parseRow row) <= 1)%nat.
Proof.
  destruct (parseRow row) as [|r l] eqn:E; [simpl; lia|].
  assert (H : In r (parseRow row)) by (rewrite E; now left).
  destruct (parseRow_inv row r H) as (K & _). rewrite K in E.
  inversion E. simpl. lia.
Qed.

Lemma flat_map_parseRow_length (rows : list jsstring) :
  (Datatypes.length (flat_map parseRow rows) <= Datatypes.length rows)%nat.
Proof.
  induction rows as [|row rows IH]; simpl; [lia|].
  rewrite length_app. pose proof (parseRow_length row). lia.
Qed.

(** X6. After a header that is not blank, the records of a feed are what
    its data rows yield one by one, in the order of the rows; a row yields
    at most one record, so there are at most as many records as rows. *)
Theorem feed_records_row_by_row :
  forall header rows,
    ~ In LF header -> trim header <> [] ->
    Forall (fun r => ~ In LF r) rows ->
    parseConsolidatedCSV (feedOf header rows) = flat_map parseRow rows
    /\ (forall row, (Datatypes.length (parseRow row) <= 1)%nat)
    /\ (Datatypes.length (parseConsolidatedCSV (feedOf header rows))
        <= Datatypes.length rows)%nat.
Proof.
  intros header rows Hlf Hh Hrows.
  rewrite feed_rows by assumption.
  split; [reflexivity|]. split; [apply parseRow_length|].
  apply flat_map_parseRow_length.
Qed.

(** X7. Feeds compose: the records of a feed whose rows are two lists of
    rows one after the other are the records of the first list followed
    by the records of the second.  In particular rows that occur twice
    yield their records twice: nothing is deduplicated. *)
Theorem feed_records_append :
  forall header rows1 rows2,
    ~ In LF header -> trim header <> [] ->
    Forall (fun r => ~ In LF r) rows1 -> Forall (fun r => ~ In LF r) rows2 ->
    parseConsolidatedCSV (feedOf header (rows1 ++ rows2))
    = parseConsolidatedCSV (feedOf header rows1)
      ++ parseConsolidatedCSV (feedOf header rows2).
Proof.
  intros header rows1 rows2 Hlf Hh H1 H2.
  rewrite !feed_rows by (assumption || (apply Forall_app; now split)).
  apply flat_map_app.
Qed.

(** X8. The header row is never read: after any two headers that are not
    blank, the same text yields the same records. *)
Theorem header_is_not_read :
  forall header1 header2 rest,
    ~ In LF header1 -> trim header1 <> [] ->
    ~ In LF header2 -> trim header2 <> [] ->
    parseConsolidatedCSV (header1 ++ LF :: rest)
    = parseConsolidatedCSV (header2 ++ LF :: rest).
Proof.
  intros header1 header2 rest A1 B1 A2 B2.
  now rewrite !rows_after_header by assumption.
Qed.

(** X9. White space around a row does not matter, and so carriage returns
    at the ends of the lines do not: a feed with CR LF line ends yields
    the records of the feed with LF line ends. *)
Theorem line_ends_do_not_matter :
  (forall before row after,
      blank before -> blank after ->
      parseRow (before ++ row ++ after) = parseRow row)
  /\ (forall header rows,
        ~ In LF header -> trim header <> [] ->
        Forall (fun r => ~ In LF r) rows ->
        parseConsolidatedCSV (feedOf (header ++ [CR])
                                     (map (fun r => r ++ [CR]) rows))
        = parseConsolidatedCSV (feedOf header rows)).
Proof.
  split.
  - intros before row after Hb Ha. apply parseRow_trim.
    now apply trim_padded.
  - intros header rows Hlf Hh Hrows.
    assert (Hcr : blank [CR]) by (repeat constructor).
    assert (A1 : ~ In LF (header ++ [CR]))
      by (apply notIn_snoc; [assumption | discriminate]).
    assert (A2 : trim (header ++ [CR]) <> []).
    { rewrite <- (app_nil_l (header ++ [CR])).
      rewrite trim_padded; [assumption | constructor | exact Hcr]. }
    assert (A3 : Forall (fun r => ~ In LF r) (map (fun r => r ++ [CR]) rows)).
    { apply Forall_map. eapply Forall_impl; [|exact Hrows].
      intros r Hr. apply notIn_snoc; [assumption | discriminate]. }
    rewrite (feed_rows _ _ A1 A2 A3), (feed_rows _ _ Hlf Hh Hrows).
    rewrite flat_map_concat_map, map_map, <- flat_map_concat_map.
    apply flat_map_ext. intros row.
    rewrite <- (app_nil_l (row ++ [CR])). apply parseRow_trim.
    apply trim_padded; [constructor | exact Hcr].
Qed.

(** X10. A text that is one line once trimmed (the empty text, a blank
    text, a header alone) yields no record. *)
Theorem single_line_yields_nothing :
  forall text, ~ In LF (trim text) -> parseConsolidatedCSV text = [].
Proof.
  intros text H. unfold parseConsolidatedCSV.
  now rewrite split_single by assumption.
Qed.

(** Closed facts about concrete strings. *)
Ltac not_in_string :=
  vm_compute;
  let H := fresh "H" in
  intros H; repeat (destruct H as [H|H]; [discriminate|]); exact H.

Ltac rows_without :=
  repeat (constructor; [not_in_string|]); constructor.

Lemma feed_records_row_by_row_witness :
  parseConsolidatedCSV (feedOf feedHeader threeRows)
  = flat_map parseRow threeRows
  /\ (forall row, (Datatypes.length (parseRow row) <= 1)%nat)
  /\ (Datatypes.length (parseConsolidatedCSV (feedOf feedHeader threeRows))
      <= Datatypes.length threeRows)%nat.
Proof.
  apply (feed_records_row_by_row feedHeader threeRows).
  - not_in_string.
  - vm_compute. discriminate.
  - rows_without.
Defined.

Lemma feed_records_append_witness :
  parseConsolidatedCSV (feedOf feedHeader (threeRows ++ threeRows))
  = parseConsolidatedCSV (feedOf feedHeader threeRows)
    ++ parseConsolidatedCSV (feedOf feedHeader threeRows).
Proof.
  apply (feed_records_append feedHeader threeRows threeRows).
  - not_in_string.
  - vm_compute. discriminate.
  - rows_without.
  - rows_without.
Defined.

Lemma header_is_not_read_witness :
  parseConsolidatedCSV (feedHeader ++ LF :: quotedRow)
  = parseConsolidatedCSV (lit "package_name,package_versions,sources"
                          ++ LF :: quotedRow).
Proof.
  apply (header_is_not_read feedHeader
           (lit "package_name,package_versions,sources") quotedRow).
  - not_in_string.
  - vm_compute. discriminate.
  - not_in_string.
  - vm_compute. discriminate.
Defined.

Lemma line_ends_do_not_matter_witness :
  parseRow (lit "  " ++ quotedRow ++ [CR]) = parseRow quotedRow
  /\ parseConsolidatedCSV (feedOf (feedHeader ++ [CR])
                                  (map (fun r => r ++ [CR]) threeRows))
     = parseConsolidatedCSV (feedOf feedHeader threeRows).
Proof.
  split.
  - apply (proj1 line_ends_do_not_matter (lit "  ") quotedRow [CR]);
      repeat constructor.
  - apply (proj2 line_ends_do_not_matter feedHeader threeRows).
    + not_in_string.
    + vm_compute. discriminate.
    + rows_without.
Defined.

Lemma single_line_yields_nothing_witness :
  parseConsolidatedCSV (lit "  name,versions,sources  ") = [].
Proof.
  apply single_line_yields_nothing. not_in_string.
Defined.

(** ** Sources written and sources reported *)

(** X11. The sources written to [dataSource.sources] are exactly the
    observed sources other than [__proto__], each once, in strictly
    ascending order of code units. *)
Theorem written_sources_characterised :
  forall existing now packages,
    (exists dataSource,
        optField (database existing now packages) (lit "dataSource")
        = Some dataSource
        /\ optField dataSource (lit "sources")
           = Some (JArray (map JString (sortedSources packages))))
    /\ (forall s,
          In s (sortedSources packages)
          <-> In s (observedSources packages) /\ s <> protoKey)
    /\ Sorted strictlyBelow (sortedSources packages)
    /\ NoDup (sortedSources packages).
Proof.
  intros existing now packages. split; [|split; [|split]].
  - eexists. split; reflexivity.
  - apply sortedSources_spec.
  - apply sortedSources_spec.
  - eapply Permutation_NoDup; [symmetry; apply sortedSources_perm|].
    apply firstOccurrences_NoDup.
Qed.

(** X12. The report and the database agree on the sources: the sources
    that the report lists are, up to order, the sources written to
    [dataSource.sources], whatever the records are. *)
Theorem report_lists_written_sources :
  forall packages,
    Permutation (map fst (sourceReport packages)) (sortedSources packages).
Proof.
  intros packages. unfold sourceReport, sortedSources, Object_keys.
  rewrite !Array_sort_perm. reflexivity.
Qed.

Lemma strictlyBelow_trans (a b c : jsstring) :
  strictlyBelow a b -> strictlyBelow b c -> strictlyBelow a c.
Proof.
  unfold strictlyBelow. revert b c.
  induction a as [|x a IH]; intros [|y b] [|z c]; simpl;
    try discriminate; try reflexivity.
  destruct (N.compare_spec x y) as [->|Hxy|Hxy]; try discriminate.
  - destruct (N.compare_spec y z) as [->|Hyz|Hyz]; try discriminate.
    + apply IH.
    + reflexivity.
  - intros _. destruct (N.compare_spec y z) as [->|Hyz|Hyz]; try discriminate.
    + intros _. destruct (N.compare_spec x z); (reflexivity || lia).
    + intros _. destruct (N.compare_spec x z); (reflexivity || lia).
Qed.

Lemma strictlyBelow_irrefl (a : jsstring) : ~ strictlyBelow a a.
Proof.
  unfold strictlyBelow. intros H.
  assert (E : compare a a = Eq) by now apply compare_eq_iff.
  congruence.
Qed.

Lemma strictly_sorted_strong (l : list jsstring) :
  Sorted strictlyBelow l -> StronglySorted strictlyBelow l.
Proof.
  apply Sorted_StronglySorted. intros a b c. apply strictlyBelow_trans.
Qed.

(** Two strictly ascending lists with the same elements are equal. *)
Lemma strictly_sorted_unique (l1 : list jsstring) :
  forall l2,
    StronglySorted strictlyBelow l1 -> StronglySorted strictlyBelow l2 ->
    (forall x, In x l1 <-> In x l2) -> l1 = l2.
Proof.
  induction l1 as [|a l1 IH]; intros l2 S1 S2 H.
  - destruct l2 as [|b l2]; [reflexivity|].
    destruct (proj2 (H b) (or_introl eq_refl)).
  - destruct l2 as [|b l2]; [destruct (proj1 (H a) (or_introl eq_refl))|].
    inversion S1 as [|? ? S1' F1]; subst.
    inversion S2 as [|? ? S2' F2]; subst.
    rewrite Forall_forall in F1, F2.
    assert (E : a = b).
    { destruct (proj1 (H a) (or_introl eq_refl)) as [K|K]; [now symmetry|].
      destruct (proj2 (H b) (or_introl eq_refl)) as [K'|K']; [assumption|].
      exfalso. apply (strictlyBelow_irrefl a).
      eapply strictlyBelow_trans; [apply F1, K' | apply F2, K]. }
    subst b. f_equal. apply IH; [assumption..|].
    intros x. split; intros K.
    + destruct (proj1 (H x) (or_intror K)) as [<-|K']; [|assumption].
      exfalso. apply (strictlyBelow_irrefl a). now apply F1.
    + destruct (proj2 (H x) (or_intror K)) as [<-|K']; [|assumption].
      exfalso. apply (strictlyBelow_irrefl a). now apply F2.
Qed.

(** X13. The written sources depend only on which sources are observed:
    neither the order of the records nor repetitions change them. *)
Theorem written_sources_order_independent :
  forall packages1 packages2,
    (forall s, In s (observedSources packages1)
               <-> In s (observedSources packages2)) ->
    sortedSources packages1 = sortedSources packages2.
Proof.
  intros packages1 packages2 H.
  apply strictly_sorted_unique.
  - apply strictly_sorted_strong, sortedSources_spec.
  - apply strictly_sorted_strong, sortedSources_spec.
  - intros x. rewrite !(proj1 (sortedSources_spec _)). now rewrite H.
Qed.

Lemma written_sources_order_independent_witness :
  sortedSources (parseConsolidatedCSV vendorFeed)
  = sortedSources (rev (parseConsolidatedCSV vendorFeed)
                   ++ parseConsolidatedCSV vendorFeed).
Proof.
  apply written_sources_order_independent.
  intros s. unfold observedSources.
  rewrite flat_map_app, in_app_iff, !in_flat_map.
  split.
  - intros (r & Hr & Hs). right. now exists r.
  - intros [(r & Hr & Hs)|(r & Hr & Hs)]; exists r; split; try assumption.
    now apply in_rev.
Defined.

(** ** Merging twice *)

Lemma orElse_idem (value : option json) (fallback : json) :
  orElse (Some (orElse value fallback)) fallback = orElse value fallback.
Proof.
  destruct value as [v|]; simpl.
  - destruct (truthy v) eqn:T; [now rewrite T|].
    now destruct (truthy fallback).
  - now destruct (truthy fallback).
Qed.

Lemma database_database :
  forall existing now1 packages1 now2 packages2,
    database (database existing now1 packages1) now2 packages2
    = database existing now2 packages2.
Proof.
  intros existing now1 packages1 now2 packages2.
  unfold database at 1.
  rewrite database_version.
  rewrite (database_curated existing now1 packages1
             (lit "attackInfo") defaultAttackInfo (or_introl eq_refl)).
  rewrite (database_curated existing now1 packages1
             (lit "indicators") defaultIndicators
             (or_intror (or_introl eq_refl))).
  rewrite (database_curated existing now1 packages1
             (lit "acknowledgements") defaultAcknowledgements
             (or_intror (or_intror (or_introl eq_refl)))).
  rewrite !orElse_idem. reflexivity.
Qed.

(** X14. A database that a merge produced, taken as the previous database
    of a second merge, acts like the previous database of the first: the
    second database is the merge of the new records into the original
    previous database.  Version and curated fields are fixed by the
    first merge, and nothing of the first feed remains. *)
Theorem merge_after_merge :
  forall existing now1 packages1 now2 packages2,
    database (database existing now1 packages1) now2 packages2
    = database existing now2 packages2.
Proof. exact database_database. Qed.

(** ** Chains of redirects *)

Lemma withRequests_same (w : World) : withRequests w (requests w) = w.
Proof. now destruct w. Qed.

Lemma fetchUrl_hops (w : World) (k : nat) :
  forall hist url hist' url' fuel,
    hops w hist url k hist' url' ->
    fetchUrl (k + fuel) url (withRequests w hist)
    = fetchUrl fuel url' (withRequests w hist')
    /\ Datatypes.length hist' = (Datatypes.length hist + k)%nat.
Proof.
  induction k as [|k IH]; intros hist url hist' url' fuel H;
    inversion H; subst.
  - split; [reflexivity | lia].
  - match goal with
    | Hn : network w hist url = Responds ?r, Hs : _ \/ _,
      Hh : hops w (hist ++ [url]) _ k hist' url' |- _ =>
        destruct (IH _ _ _ _ fuel Hh) as [E L];
        split;
        [ rewrite <- E;
          apply (fetchUrl_redirect (k + fuel) url (withRequests w hist) r
                   Hn Hs)
        | rewrite L, length_app; simpl; lia ]
    end.
Qed.

(** X15. Redirects are followed without a limit on their number: after
    [k] answers 301 or 302 in a row, the fetch continues as the fetch of
    the last [Location], [k] requests later; when that one is answered
    200, the promise resolves to its body after [k + 1] requests. *)
Theorem redirect_chain_is_followed :
  forall w url k hist' url',
    hops w (requests w) url k hist' url' ->
    (forall fuel,
        fetchUrl (k + fuel) url w = fetchUrl fuel url' (withRequests w hist'))
    /\ Datatypes.length hist' = (Datatypes.length (requests w) + k)%nat
    /\ (forall res fuel,
          network w hist' url' = Responds res ->
          statusCode res = 200%N -> ending res = EndOfBody ->
          fetchUrl (k + S fuel) url w
          = (Some (Resolved (List.concat (chunks res))),
             withRequests w (hist' ++ [url']))).
Proof.
  intros w url k hist' url' H.
  assert (A : forall fuel,
             fetchUrl (k + fuel) url w
             = fetchUrl fuel url' (withRequests w hist')).
  { intros fuel.
    destruct (fetchUrl_hops w k (requests w) url hist' url' fuel H) as [E _].
    now rewrite withRequests_same in E. }
  split; [exact A|]. split.
  - now destruct (fetchUrl_hops w k (requests w) url hist' url' 0 H).
  - intros res fuel Hn H200 He. rewrite A. simpl.
    rewrite Hn, H200, He. reflexivity.
Qed.

Lemma redirect_chain_is_followed_witness :
  (forall fuel,
      fetchUrl (1 + fuel) (Some CONSOLIDATED_IOC_URL) redirectWorld
      = fetchUrl fuel (Some mirrorUrl)
                 (withRequests redirectWorld [Some CONSOLIDATED_IOC_URL]))
  /\ Datatypes.length [Some CONSOLIDATED_IOC_URL]
     = (Datatypes.length (requests redirectWorld) + 1)%nat
  /\ (forall res fuel,
        network redirectWorld [Some CONSOLIDATED_IOC_URL] (Some mirrorUrl)
        = Responds res ->
        statusCode res = 200%N -> ending res = EndOfBody ->
        fetchUrl (1 + S fuel) (Some CONSOLIDATED_IOC_URL) redirectWorld
        = (Some (Resolved (List.concat (chunks res))),
           withRequests redirectWorld
                        ([Some CONSOLIDATED_IOC_URL] ++ [Some mirrorUrl]))).
Proof.
  apply (redirect_chain_is_followed redirectWorld (Some CONSOLIDATED_IOC_URL)
           1 [Some CONSOLIDATED_IOC_URL] (Some mirrorUrl)).
  apply (hops_more redirectWorld [] (Some CONSOLIDATED_IOC_URL)
           (movedTo mirrorUrl) 0 [Some CONSOLIDATED_IOC_URL] (Some mirrorUrl)).
  - vm_compute. reflexivity.
  - right. reflexivity.
  - apply hops_none.
Defined.

Lemma fetchUrl_never_settles (fuel : nat) :
  forall w url,
    alwaysRedirects w ->
    fst (fetchUrl fuel url w) = None
    /\ Datatypes.length (requests (snd (fetchUrl fuel url w)))
       = (Datatypes.length (requests w) + fuel)%nat.
Proof.
  induction fuel as [|fuel IH]; intros w url H; simpl.
  - split; [reflexivity | lia].
  - destruct (H (requests w) url) as (res & Hn & Hs). rewrite Hn.
    assert (E : (statusCode res =? 301)%N || (statusCode res =? 302)%N = true)
      by (destruct Hs as [-> | ->]; reflexivity).
    rewrite E.
    destruct (IH (logRequest w url) (location res) H) as [A B].
    split; [exact A|]. rewrite B. simpl. rewrite length_app. simpl. lia.
Qed.

(** X16. A redirect loop never ends: when every request is answered by a
    redirect, the promise of the fetch is not settled after any number of
    requests, each step issues one more request, and the run writes
    nothing. *)
Theorem redirect_loop_never_settles :
  forall JSON_parse JSON_stringify w,
    alwaysRedirects w ->
    forall fuel,
      (forall url,
          fst (fetchUrl fuel url w) = None
          /\ Datatypes.length (requests (snd (fetchUrl fuel url w)))
             = (Datatypes.length (requests w) + fuel)%nat)
      /\ fst (updateDatabase JSON_parse JSON_stringify fuel w) = Unsettled
      /\ writes (snd (updateDatabase JSON_parse JSON_stringify fuel w))
         = writes w
      /\ disk (snd (updateDatabase JSON_parse JSON_stringify fuel w))
         = disk w.
Proof.
  intros JSON_parse JSON_stringify w H fuel.
  split; [intros url; now apply fetchUrl_never_settles|].
  unfold updateDatabase.
  pose proof (fetchUrl_never_settles fuel w (Some CONSOLIDATED_IOC_URL) H)
    as [A _].
  pose proof (fetchUrl_frame fuel (Some CONSOLIDATED_IOC_URL) w)
    as (Fd & Fw & _).
  destruct (fetchUrl fuel (Some CONSOLIDATED_IOC_URL) w) as [o w1].
  simpl in *. subst o. simpl. auto.
Qed.

Lemma redirect_loop_never_settles_witness :
  fst (updateDatabase parseNothing printBraces 5 loopWorld) = Unsettled
  /\ writes (snd (updateDatabase parseNothing printBraces 5 loopWorld))
     = writes loopWorld.
Proof.
  assert (H : alwaysRedirects loopWorld).
  { intros hist url. exists (movedTo CONSOLIDATED_IOC_URL).
    split; [reflexivity | right; reflexivity]. }
  destruct (redirect_loop_never_settles parseNothing printBraces loopWorld
              H 5) as (_ & A & B & _).
  now split.
Defined.

(** ** Runs of the script *)

Section RunProperties.
Variable JSON_parse : jsstring -> option json.
Variable JSON_stringify : json -> jsstring.



End RunProperties.


(** ** The comparison with the previous snapshot *)

Lemma countWildcards_Some (items : list json) :
  ~ In JNull items ->
  exists n, countWildcards items = Some n /\ (n <= Datatypes.length items)%nat.
Proof.
  induction items as [|p items IH]; intros H; simpl.
  - exists 0%nat. split; [reflexivity | lia].
  - destruct IH as (n & E & L); [intros K; apply H; now right|].
    rewrite E.
    destruct p; simpl; try (exists n; split; [reflexivity | lia]).
    + exfalso. apply H. now left.
    + match goal with
      | |- context [if ?b then _ else _] => destruct b
      end; eexists; (split; [reflexivity | lia]).
Qed.

Lemma countWildcards_None (items : list json) :
  In JNull items -> countWildcards items = None.
Proof.
  induction items as [|p items IH]; intros H; simpl; [destruct H|].
  destruct H as [->|H]; [reflexivity|].
  rewrite (IH H). now destruct (isWildcardEntry p).
Qed.

(** X19. What the comparison with the previous snapshot does.  Without a
    truthy [packages] in the previous database nothing is compared.  For
    an array without [null] it yields the difference of the two lengths
    and a number of wildcard entries that is at most the old length.  It
    throws for an array that holds [null], and for any truthy value that
    is not an array (a string, a number, an object). *)
Theorem comparison_outcomes :
  forall existing newCount,
    (optField existing (lit "packages") = None
     \/ (exists v, optField existing (lit "packages") = Some v
                   /\ truthy v = false) ->
     comparePrevious existing newCount = NotCompared)
    /\ (forall items,
          optField existing (lit "packages") = Some (JArray items) ->
          ~ In JNull items ->
          exists n,
            comparePrevious existing newCount
            = Compared (Z.of_nat newCount - Z.of_nat (Datatypes.length items)) n
            /\ (n <= Datatypes.length items)%nat)
    /\ (forall items,
          optField existing (lit "packages") = Some (JArray items) ->
          In JNull items ->
          comparePrevious existing newCount = ComparisonThrows nullRead)
    /\ (forall v,
          optField existing (lit "packages") = Some v ->
          truthy v = true -> (forall items, v <> JArray items) ->
          comparePrevious existing newCount = ComparisonThrows notAFunction).
Proof.
  intros existing newCount. unfold comparePrevious.
  split; [|split; [|split]].
  - intros [->|(v & -> & T)]; [reflexivity | now rewrite T].
  - intros items -> H. simpl.
    destruct (countWildcards_Some items H) as (n & E & L).
    exists n. now rewrite E.
  - intros items -> H. simpl. now rewrite countWildcards_None.
  - intros v -> T H. rewrite T.
    destruct v; try reflexivity. now destruct (H items).
Qed.

Lemma comparison_outcomes_witness :
  comparePrevious (JObject [(lit "version", JString (lit "1.0.0"))]) 3
  = NotCompared
  /\ (exists n,
         comparePrevious
           (JObject [(lit "packages", JArray [JString (lit "pkg"); JBool true])])
           3
         = Compared (Z.of_nat 3 - Z.of_nat 2) n
         /\ (n <= 2)%nat)
  /\ comparePrevious (JObject [(lit "packages", JArray [JNull])]) 3
     = ComparisonThrows nullRead
  /\ comparePrevious databaseWithLegacyPackages 3
     = ComparisonThrows notAFunction.
Proof.
  split; [|split; [|split]].
  - apply (proj1 (comparison_outcomes _ 3%nat)). now left.
  - apply (proj1 (proj2 (comparison_outcomes
                           (JObject [(lit "packages",
                                      JArray [JString (lit "pkg"); JBool true])])
                           3%nat))
             [JString (lit "pkg"); JBool true]).
    + reflexivity.
    + intros [H|[H|[]]]; discriminate.
  - apply (proj1 (proj2 (proj2 (comparison_outcomes
                                  (JObject [(lit "packages", JArray [JNull])])
                                  3%nat)))
             [JNull]).
    + reflexivity.
    + now left.
  - apply (proj2 (proj2 (proj2 (comparison_outcomes
                                  databaseWithLegacyPackages 3%nat)))
             (JString (lit "see packages.json"))).
    + reflexivity.
    + reflexivity.
    + intros items. discriminate.
Defined.

Lemma isWildcardEntry_packageEntry (r : PackageRecord) :
  isWildcardEntry (packageEntry r) = Some (wildcardRecord r).
Proof.
  unfold packageEntry, wildcardRecord. simpl.
  destruct (affectedVersions r) as [|v [|v' vs]]; reflexivity.
Qed.

Lemma countWildcards_packageEntries (records : list PackageRecord) :
  countWildcards (map packageEntry records)
  = Some (Datatypes.length (filter wildcardRecord records)).
Proof.
  induction records as [|r records IH]; [reflexivity|].
  cbn [map countWildcards]. rewrite isWildcardEntry_packageEntry, IH.
  simpl. now destruct (wildcardRecord r).
Qed.

Lemma comparePrevious_database :
  forall existing now records newCount,
    comparePrevious (database existing now records) newCount
    = Compared (Z.of_nat newCount - Z.of_nat (Datatypes.length records))
               (Datatypes.length (filter wildcardRecord records)).
Proof.
  intros existing now records newCount. unfold comparePrevious.
  change (optField (database existing now records) (lit "packages"))
    with (Some (JArray (map packageEntry records))).
  cbn [truthy]. rewrite countWildcards_packageEntries.
  now rewrite length_map.
Qed.

(** X20. The comparison reads back what the merge writes: against a
    database that this script produced, it never throws, its difference
    is the new number of records minus the number of records written
    then, and its number of wildcards is the number of those records
    whose versions are exactly the one selector [*]. *)
Theorem comparison_with_own_database :
  forall existing now records newCount,
    comparePrevious (database existing now records) newCount
    = Compared (Z.of_nat newCount - Z.of_nat (Datatypes.length records))
               (Datatypes.length (filter wildcardRecord records)).
Proof. exact comparePrevious_database. Qed.

(** ** The end of the run *)

Section ScriptProperties.
Variable JSON_parse : jsstring -> option json.
Variable JSON_stringify : json -> jsstring.



End ScriptProperties.



(** ** The written database against the declared shapes *)

Lemma isArrayOf_strings (l : list jsstring) :
  isArrayOf isJString (JArray (map JString l)) = true.
Proof. simpl. induction l as [|s l IH]; simpl; [reflexivity | exact IH]. Qed.

Lemma isPackageEntry_packageEntry (r : PackageRecord) :
  isSeverity (JString (severity r)) = true ->
  isPackageEntry (packageEntry r) = true.
Proof.
  intros H. unfold isPackageEntry, packageEntry.
  change (member isJString (lit "name")
            (JObject
               [(lit "name", JString (name r));
                (lit "severity", JString (severity r));
                (lit "affectedVersions",
                 JArray (map JString (affectedVersions r)))]))
    with true.
  change (member isSeverity (lit "severity")
            (JObject
               [(lit "name", JString (name r));
                (lit "severity", JString (severity r));
                (lit "affectedVersions",
                 JArray (map JString (affectedVersions r)))]))
    with (isSeverity (JString (severity r))).
  change (member (isArrayOf isJString) (lit "affectedVersions")
            (JObject
               [(lit "name", JString (name r));
                (lit "severity", JString (severity r));
                (lit "affectedVersions",
                 JArray (map JString (affectedVersions r)))]))
    with (isArrayOf isJString (JArray (map JString (affectedVersions r)))).
  now rewrite H, isArrayOf_strings.
Qed.

Lemma parsed_entries_typed (text : jsstring) :
  isArrayOf isPackageEntry
            (JArray (map packageEntry (parseConsolidatedCSV text))) = true.
Proof.
  simpl. apply forallb_forall. intros v Hv.
  apply in_map_iff in Hv. destruct Hv as (r & <- & Hr).
  apply isPackageEntry_packageEntry.
  unfold parseConsolidatedCSV in Hr. apply in_flat_map in Hr.
  destruct Hr as (row & _ & Hr).
  destruct (parseRow_inv row r Hr) as (_ & _ & _ & -> & _). reflexivity.
Qed.

(** X23. Every entry of [packages] that a run writes has the shape of
    [PackageEntry]: a string name, the severity [critical], which is one
    of the four declared, and an array of strings as versions; the
    transient [sources] of the record is not among its keys. *)
Theorem written_entries_are_package_entries :
  forall existing now text,
    exists entries,
      optField (database existing now (parseConsolidatedCSV text))
               (lit "packages") = Some (JArray entries)
      /\ forallb isPackageEntry entries = true
      /\ Datatypes.length entries
         = Datatypes.length (parseConsolidatedCSV text)
      /\ forall entry, In entry entries -> optField entry (lit "sources") = None.
Proof.
  intros existing now text.
  exists (map packageEntry (parseConsolidatedCSV text)).
  split; [reflexivity|]. split; [apply (parsed_entries_typed text)|].
  split; [apply length_map|].
  intros entry H. apply in_map_iff in H. destruct H as (r & <- & _).
  reflexivity.
Qed.

Lemma member_inv (check : json -> bool) (key : jsstring) (v : json) :
  member check key v = true ->
  exists x, optField v key = Some x /\ check x = true.
Proof.
  unfold member. destruct (optField v key) as [x|]; [|discriminate].
  intros H. now exists x.
Qed.

Lemma member_truthy_object (check : json -> bool) (key : jsstring) (v : json) :
  member check key v = true -> truthy v = true.
Proof.
  intros H. apply member_inv in H. destruct H as (x & H & _).
  destruct v; simpl in H; try discriminate. reflexivity.
Qed.

Lemma database_shape (existing : json) (now : jsstring)
      (packages : list PackageRecord) :
  isMasterPackages (database existing now packages)
  = isJString (orElse (optField existing (lit "version")) defaultVersion)
    && isAttackInfo
         (orElse (optField existing (lit "attackInfo")) defaultAttackInfo)
    && isIndicators
         (orElse (optField existing (lit "indicators")) defaultIndicators)
    && isArrayOf isPackageEntry (JArray (map packageEntry packages))
    && isArrayOf isJString (JArray (map JString (sortedSources packages)))
    && isAcknowledgements
         (orElse (optField existing (lit "acknowledgements"))
                 defaultAcknowledgements).
Proof.
  unfold isMasterPackages.
  change (member isJString (lit "version") (database existing now packages))
    with (isJString (orElse (optField existing (lit "version")) defaultVersion)).
  change (member isJString (lit "lastUpdated")
            (database existing now packages)) with true.
  change (member isAttackInfo (lit "attackInfo")
            (database existing now packages))
    with (isAttackInfo
            (orElse (optField existing (lit "attackInfo")) defaultAttackInfo)).
  change (member isIndicators (lit "indicators")
            (database existing now packages))
    with (isIndicators
            (orElse (optField existing (lit "indicators")) defaultIndicators)).
  change (optionalMember isStats (lit "stats")
            (database existing now packages)) with true.
  change (member (isArrayOf isPackageEntry) (lit "packages")
            (database existing now packages))
    with (isArrayOf isPackageEntry (JArray (map packageEntry packages))).
  change (optionalMember (isArrayOf isJString) (lit "sources")
            (database existing now packages)) with true.
  change (optionalMember isDataSource (lit "dataSource")
            (database existing now packages))
    with (true && true
          && isArrayOf isJString (JArray (map JString (sortedSources packages)))
          && true).
  change (optionalMember isAcknowledgements (lit "acknowledgements")
            (database existing now packages))
    with (isAcknowledgements
            (orElse (optField existing (lit "acknowledgements"))
                    defaultAcknowledgements)).
  rewrite !andb_true_r. reflexivity.
Qed.

Lemma optionalMember_inv (check : json -> bool) (key : jsstring)
      (v x : json) :
  optionalMember check key v = true -> optField v key = Some x ->
  check x = true.
Proof.
  unfold optionalMember. destruct v; simpl; try discriminate.
  intros H E. now rewrite E in H.
Qed.

Lemma isAttackInfo_truthy (x : json) : isAttackInfo x = true -> truthy x = true.
Proof.
  unfold isAttackInfo. intros K.
  repeat (apply andb_prop in K; destruct K as [K ?]).
  now apply (member_truthy_object _ _ _ K).
Qed.

Lemma isIndicators_truthy (x : json) : isIndicators x = true -> truthy x = true.
Proof.
  unfold isIndicators. intros K.
  repeat (apply andb_prop in K; destruct K as [K ?]).
  now apply (member_truthy_object _ _ _ K).
Qed.

Lemma isAcknowledgements_truthy (x : json) :
  isAcknowledgements x = true -> truthy x = true.
Proof. intros K. now apply (member_truthy_object _ _ _ K). Qed.

Lemma version_stays_string (x : json) :
  isJString x = true -> isJString (orElse (Some x) defaultVersion) = true.
Proof.
  destruct x; try discriminate. intros _. simpl.
  now destruct (nonEmpty s).
Qed.

(** X24. The merge against [MasterPackages].  When the previous database
    has the declared shape and holds [acknowledgements], the database
    written for any feed has the declared shape.  When the previous
    database is absent, the database written has not: the seed of
    [indicators] is an empty object, without the required members, and
    the seed of [acknowledgements] is an array.  The same seed of
    [acknowledgements] breaks the shape when the previous database has the
    shape but no [acknowledgements]. *)
Theorem merge_and_declared_shape :
  (forall existing now text,
      isMasterPackages existing = true ->
      optField existing (lit "acknowledgements") <> None ->
      isMasterPackages (database existing now (parseConsolidatedCSV text))
      = true)
  /\ (forall now packages,
        isMasterPackages (database JNull now packages) = false)
  /\ (forall existing now packages,
        isMasterPackages existing = true ->
        optField existing (lit "acknowledgements") = None ->
        isMasterPackages (database existing now packages) = false).
Proof.
  split; [|split].
  - intros existing now text H Hack. rewrite database_shape.
    unfold isMasterPackages in H.
    apply andb_prop in H. destruct H as [H H9].
    apply andb_prop in H. destruct H as [H _].
    apply andb_prop in H. destruct H as [H _].
    apply andb_prop in H. destruct H as [H _].
    apply andb_prop in H. destruct H as [H _].
    apply andb_prop in H. destruct H as [H H4].
    apply andb_prop in H. destruct H as [H H3].
    apply andb_prop in H. destruct H as [H1 _].
    apply member_inv in H1. destruct H1 as (v1 & E1 & C1).
    apply member_inv in H3. destruct H3 as (v3 & E3 & C3).
    apply member_inv in H4. destruct H4 as (v4 & E4 & C4).
    destruct (optField existing (lit "acknowledgements")) as [v9|] eqn:E9;
      [|congruence].
    assert (C9 : isAcknowledgements v9 = true)
      by (eapply optionalMember_inv; eassumption).
    rewrite E1, E3, E4.
    rewrite (version_stays_string v1 C1).
    rewrite (orElse_truthy v3 _ (isAttackInfo_truthy v3 C3)), C3.
    rewrite (orElse_truthy v4 _ (isIndicators_truthy v4 C4)), C4.
    rewrite (orElse_truthy v9 _ (isAcknowledgements_truthy v9 C9)), C9.
    now rewrite parsed_entries_typed, isArrayOf_strings.
  - intros now packages. rewrite database_shape. simpl orElse.
    change (isIndicators defaultIndicators) with false.
    now rewrite !andb_false_r.
  - intros existing now packages H Hack. rewrite database_shape, Hack.
    change (isAcknowledgements (orElse None defaultAcknowledgements))
      with false.
    apply andb_false_r.
Qed.

Lemma merge_and_declared_shape_witness :
  isMasterPackages (database typedDatabase instant1
                             (parseConsolidatedCSV quotedFeed)) = true.
Proof.
  apply (proj1 merge_and_declared_shape typedDatabase instant1 quotedFeed).
  - vm_compute. reflexivity.
  - vm_compute. discriminate.
Defined.

(** ** A second run over the file of a first run *)

Section TwoRuns.
Variable JSON_parse : jsstring -> option json.
Variable JSON_stringify : json -> jsstring.


End TwoRuns.


(** ** Further closed instances *)

Lemma written_sources_characterised_witness :
  In (lit "wiz") (sortedSources (parseConsolidatedCSV vendorFeed))
  /\ ~ In (lit "__proto__") (sortedSources (parseConsolidatedCSV protoSourceFeed)).
Proof.
  split.
  - apply (proj1 (proj2 (written_sources_characterised
                           JNull instant1 (parseConsolidatedCSV vendorFeed)))
             (lit "wiz")).
    split; [vm_compute; tauto | discriminate].
  - intros H.
    apply (proj1 (proj2 (written_sources_characterised
                           JNull instant1
                           (parseConsolidatedCSV protoSourceFeed)))
             (lit "__proto__")) in H.
    destruct H as [_ H]. now apply H.
Defined.

Lemma written_entries_are_package_entries_witness :
  exists entries,
    optField (database JNull instant1 (parseConsolidatedCSV vendorFeed))
             (lit "packages") = Some (JArray entries)
    /\ forallb isPackageEntry entries = true
    /\ Datatypes.length entries = 3%nat.
Proof.
  destruct (written_entries_are_package_entries JNull instant1 vendorFeed)
    as (entries & A & B & C & _).
  exists entries. split; [exact A|]. split; [exact B|].
  rewrite C. vm_compute. reflexivity.
Defined.
